(** * 3d hyperbolic honeycombs in Poincare's ball model

    A shallow embedding of [src/uniform-tilings/honeycomb.py]: the
    coordinate canonicalizer ([vround], [centroid]), the class [Cell]
    (one uniform polyhedron of the tiling) and the class [Honeycomb]
    (assembly of the fundamental cells, edge registry, export of the
    camera-culled edges to a POV-Ray include file).

    The numeric scalars of the program are numpy floats.  They are kept
    abstract here: every function below is written over a scalar type
    [F] with the operations the source uses, so that what is proved
    holds for every implementation of those operations.  The modules
    [helpers] and [coxeter] that the source imports are interfaces of
    the development as well. *)

From Stdlib Require Import String.
From Stdlib Require Import List Bool Arith ZArith Lia.
From Stdlib Require Import Ring.
From Stdlib Require QArith Qcanon PrimFloat.
Import ListNotations.

Set Implicit Arguments.

(** ** Exceptions *)

(** The two exceptions the modelled code can raise by itself: the
    [ValueError] of [Honeycomb.__init__] and the [IndexError] of a
    subscript out of range.  The errors of numpy on operands of
    different shapes and the [OSError] of [open] are outside the model:
    the vectors of one computation are taken to have one shape, and the
    file to be writable. *)
Inductive exn : Type :=
| ValueError (msg : string)
| IndexError.

Inductive result (A : Type) : Type :=
| Ok (a : A)
| Raise (e : exn).

Arguments Ok {A} a.
Arguments Raise {A} e.

Definition bind {A B : Type} (c : result A) (k : A -> result B) : result B :=
  match c with
  | Ok a => k a
  | Raise e => Raise e
  end.

Notation "x <- c ;; k" := (bind c (fun x => k))
  (at level 61, c at next level, right associativity).
Notation "' pat <- c ;; k" := (bind c (fun x => match x with pat => k end))
  (at level 61, pat pattern, c at next level, right associativity).

(** A [for] loop whose body can raise: the state is threaded from left
    to right and the first exception ends the loop. *)
Fixpoint foldM {A B : Type} (f : A -> B -> result A) (l : list B) (a : A)
  : result A :=
  match l with
  | [] => Ok a
  | x :: l' => a' <- f a x ;; foldM f l' a'
  end.

(** A list comprehension whose element expression can raise. *)
Fixpoint mapM {A B : Type} (f : A -> result B) (l : list A) : result (list B) :=
  match l with
  | [] => Ok []
  | x :: l' => y <- f x ;; ys <- mapM f l' ;; Ok (y :: ys)
  end.

(** [l[i]] for a non-negative index. *)
Definition subscript {A : Type} (l : list A) (i : nat) : result A :=
  match nth_error l i with
  | Some x => Ok x
  | None => Raise IndexError
  end.

(** The computation ended without an exception. *)
Definition is_ok {A : Type} (r : result A) : bool :=
  match r with
  | Ok _ => true
  | Raise _ => false
  end.

(** [index_only r]: the only exception [r] can be is [IndexError]. *)
Definition index_only {A : Type} (r : result A) : Prop :=
  forall e, r = Raise e -> e = IndexError.

(** ** Pure helpers of the standard library of the source language *)

(** [itertools.combinations(l, r)], in its lexicographic order. *)
Fixpoint combinations {A : Type} (l : list A) (r : nat) {struct l}
  : list (list A) :=
  match r with
  | 0 => [[]]
  | S r' =>
      match l with
      | [] => []
      | x :: t => map (cons x) (combinations t r') ++ combinations t r
      end
  end.

(** [enumerate(l)]. *)
Definition enumerate {A : Type} (l : list A) : list (nat * A) :=
  combine (seq 0 (length l)) l.

(** A [dict] in insertion order; [d[k] = v] replaces the value of a key
    that is present and appends a new key otherwise. *)
Fixpoint dict_set {K V : Type} (keq : K -> K -> bool) (d : list (K * V))
  (k : K) (v : V) : list (K * V) :=
  match d with
  | [] => [(k, v)]
  | (k', v') :: d' =>
      if keq k' k then (k', v) :: d' else (k', v') :: dict_set keq d' k v
  end.

(** ** Coxeter matrices and words *)

Definition matrix : Type := list (list Z).

(** A word of the group: a sequence of generator indices. *)
Definition word : Type := list nat.

(** [mat[np.ix_(idx, idx)]]: the rows and columns of [mat] at [idx]. *)
Definition ix_ (mat : matrix) (idx : list nat) : result matrix :=
  mapM (fun i => row <- subscript mat i ;; mapM (subscript row) idx) idx.

(** Modelled from the spec: [helpers.make_symmetry_matrix], which is not
    part of the sources at hand.  The spec (section 3) describes its
    result for a 6-value diagram: a symmetric matrix of rank 4 with unit
    diagonal, holding the six pairwise relations of the four generators.
    The entries are taken in the order (0,1), (0,2), (0,3), (1,2), (1,3),
    (2,3). *)
Definition make_symmetry_matrix (coxeter_diagram : list Z) : matrix :=
  let a k := nth k coxeter_diagram 1%Z in
  [ [1%Z; a 0; a 1; a 2];
    [a 0; 1%Z; a 3; a 4];
    [a 1; a 3; 1%Z; a 5];
    [a 2; a 4; a 5; 1%Z] ].

(** ** Interfaces *)

(** The float operations that [honeycomb.py] applies to coordinates. *)
Class FloatOps (F : Type) : Type := {
  f0 : F;                       (* 0 *)
  f2 : F;                       (* 2 *)
  fhalf : F;                    (* 0.5 *)
  fadd : F -> F -> F;
  fsub : F -> F -> F;
  fmul : F -> F -> F;
  fgtb : F -> F -> bool;        (* x > y *)
  feqb : F -> F -> bool;        (* x == y *)
  fround8 : F -> F              (* np.round(x, 8) *)
}.

(** The functions of the module [helpers] that the source calls, and
    the text formatting of vectors. *)
Class Helpers (F : Type) : Type := {
  normalize : list F -> list F;
  project_poincare : list F -> list F;
  is_degenerate : matrix -> list bool -> bool;
  get_hyperbolic_honeycomb_mirrors : list Z -> list (list F);
  get_point_from_distance : list (list F) -> list F -> list F;
  pov_vector : list F -> string;
  pov_vector_list : list (list F) -> string
}.

(** The group engine [coxeter.CoxeterGroup]: [traverse cox_mat depth
    maxcount] is the sequence of words that [CoxeterGroup(cox_mat)]
    yields from [traverse(depth, maxcount)] after [init()]. *)
Class CoxeterGroup : Type := {
  traverse : matrix -> option nat -> option nat -> list word
}.

(** ** The program *)

Section Program.

Context (F : Type) {FO : FloatOps F} {HP : Helpers F} {CG : CoxeterGroup}.

(** A numpy 1d array, and the tuple [vround] makes of one. *)
Definition vec : Type := list F.
Definition key : Type := list F.
Definition edge : Type := (key * key)%type.

(** *** Vector arithmetic (numpy broadcasting on arrays of one shape)

    On operands of different lengths the functions below stop at the
    shorter one, where numpy raises [ValueError]; they agree with numpy
    on operands of one length, the only case the properties are about. *)

Definition vadd (u v : vec) : vec := map (fun p => fadd (fst p) (snd p)) (combine u v).
Definition vsub (u v : vec) : vec := map (fun p => fsub (fst p) (snd p)) (combine u v).
Definition vscale (c : F) (v : vec) : vec := map (fmul c) v.

(** [np.dot(u, v)] of two 1d arrays. *)
Definition dot (u v : vec) : F :=
  fold_left fadd (map (fun p => fmul (fst p) (snd p)) (combine u v)) f0.

(** Equality of two tuples of floats. *)
Fixpoint key_eqb (a b : key) : bool :=
  match a, b with
  | [], [] => true
  | x :: a', y :: b' => feqb x y && key_eqb a' b'
  | _, _ => false
  end.

(** [k in s] for a list or a set of tuples.  Every tuple the program
    tests is a new object made by [vround], so membership is decided by
    the equality of the floats alone (a NaN coordinate is equal to
    nothing).  A set is kept as the list of its keys in insertion
    order; its size is the length of the list. *)
Definition key_mem (k : key) (s : list key) : bool := existsb (key_eqb k) s.

(** [s.add(k)]. *)
Definition set_add (k : key) (s : list key) : list key :=
  if key_mem k s then s else s ++ [k].

(** *** Coordinate canonicalizer *)

Definition vround (v : vec) : key := map fround8 v.

(** [np.sum(points, axis=0)] of the two endpoints is their sum. *)
Definition centroid (points : edge) : key :=
  let mid := normalize (vadd (fst points) (snd points)) in
  vround mid.

(** *** Reflections *)

Definition reflect (v normal : vec) : vec :=
  vsub v (vscale (fmul f2 (dot v normal)) normal).

Definition get_reflections (mirrors : list vec) : list (vec -> vec) :=
  map (fun n => fun v => reflect v n) mirrors.

(** The loop [for w in reversed(word): v = reflections[w](v)]. *)
Definition apply_word (reflections : list (vec -> vec)) (w : word) (v : vec)
  : result vec :=
  foldM (fun v g => r <- subscript reflections g ;; Ok (r v)) (rev w) v.

(** [Cell.transform] and [Honeycomb.transform] have the same body. *)
Definition transform (reflections : list (vec -> vec)) (w : word) (v : vec)
  : result key :=
  v' <- apply_word reflections w v ;; Ok (vround v').

Definition project (v : vec) : vec := project_poincare v.

(** *** class Cell *)

Record Cell : Type := mkCell {
  Cell_cox_mat : matrix;
  Cell_v0 : vec;
  Cell_active : list bool;
  Cell_reflections : list (vec -> vec);
  Cell_words : list word;
  Cell_vertices_coords : list key;
  Cell_num_vertices : option nat;
  Cell_edge_coords : list edge;
  Cell_num_edges : option nat
}.

Definition Cell_init (cox_mat : matrix) (v0 : vec) (active : list bool)
  (reflections : list (vec -> vec)) : Cell :=
  mkCell cox_mat v0 active reflections [] [] None [] None.

Definition Cell_transform (c : Cell) (w : word) (v : vec) : result key :=
  transform (Cell_reflections c) w v.

(** Body of the loop of [get_vertices]. *)
Definition get_vertices_step (c : Cell) (vertices_coords : list key) (w : word)
  : result (list key) :=
  v <- Cell_transform c w (Cell_v0 c) ;;
  if negb (key_mem v vertices_coords)
  then Ok (vertices_coords ++ [v])
  else Ok vertices_coords.

Definition Cell_get_vertices (c : Cell) : result Cell :=
  vs <- foldM (get_vertices_step c) (Cell_words c) (Cell_vertices_coords c) ;;
  Ok (mkCell (Cell_cox_mat c) (Cell_v0 c) (Cell_active c) (Cell_reflections c)
        (Cell_words c) vs (Some (length vs))
        (Cell_edge_coords c) (Cell_num_edges c)).

(** Body of the inner loop of [get_edges]; the state is the pair of
    [self.edge_coords] and the local [edgehash]. *)
Definition get_edges_step (c : Cell) (i : nat) (st : list edge * list key)
  (w : word) : result (list edge * list key) :=
  p1 <- Cell_transform c w (Cell_v0 c) ;;
  p2 <- Cell_transform c (w ++ [i]) (Cell_v0 c) ;;
  let q := centroid (p1, p2) in
  if negb (key_mem q (snd st))
  then Ok (fst st ++ [(p1, p2)], set_add q (snd st))
  else Ok st.

(** Body of the outer loop of [get_edges]. *)
Definition get_edges_gen (c : Cell) (st : list edge * list key)
  (ia : nat * bool) : result (list edge * list key) :=
  if snd ia then foldM (get_edges_step c (fst ia)) (Cell_words c) st
  else Ok st.

Definition Cell_get_edges (c : Cell) : result Cell :=
  st <- foldM (get_edges_gen c) (enumerate (Cell_active c))
          (Cell_edge_coords c, []) ;;
  Ok (mkCell (Cell_cox_mat c) (Cell_v0 c) (Cell_active c) (Cell_reflections c)
        (Cell_words c) (Cell_vertices_coords c) (Cell_num_vertices c)
        (fst st) (Some (length (fst st)))).

Definition Cell_build_geometry (c : Cell) : result Cell :=
  let c1 := mkCell (Cell_cox_mat c) (Cell_v0 c) (Cell_active c)
              (Cell_reflections c) (traverse (Cell_cox_mat c) None None)
              (Cell_vertices_coords c) (Cell_num_vertices c)
              (Cell_edge_coords c) (Cell_num_edges c) in
  c2 <- Cell_get_vertices c1 ;;
  Cell_get_edges c2.

(** *** class Honeycomb *)

(** The group engine object [self.G] has no field here: it is the
    interface [CoxeterGroup] applied to [cox_mat]. *)
Record Honeycomb : Type := mkHoneycomb {
  cox_mat : matrix;
  rank : nat;
  gens : list nat;
  active : list bool;
  mirrors : list vec;
  reflections : list (vec -> vec);
  init_v : vec;
  fundamental_cells : list (list nat * Cell);
  edge_hash_set : list key;
  num_vertices : nat;
  num_edges : nat
}.

Definition get_mirrors (coxeter_diagram : list Z) : list vec :=
  get_hyperbolic_honeycomb_mirrors coxeter_diagram.

Definition get_init_point (mirrors : list vec) (init_dist : list F) : vec :=
  get_point_from_distance mirrors init_dist.

(** Equality of two tuples of generator indices (keys of the dict of
    fundamental cells). *)
Definition triple_eqb (a b : list nat) : bool :=
  if list_eq_dec Nat.eq_dec a b then true else false.

(** The three values [get_fundamental_cells] computes for a triple
    before the degeneracy test. *)
Definition restrict (cox_mat : matrix) (reflections : list (vec -> vec))
  (active : list bool) (triple : list nat)
  : result (matrix * list (vec -> vec) * list bool) :=
  cm <- ix_ cox_mat triple ;;
  refs <- mapM (subscript reflections) triple ;;
  act <- mapM (subscript active) triple ;;
  Ok (cm, refs, act).

(** Body of the loop of [get_fundamental_cells]. *)
Definition fundamental_cells_step (cox_mat : matrix)
  (reflections : list (vec -> vec)) (active : list bool) (init_v : vec)
  (res : list (list nat * Cell)) (triple : list nat)
  : result (list (list nat * Cell)) :=
  '(cm, refs, act) <- restrict cox_mat reflections active triple ;;
  if negb (is_degenerate cm act)
  then C <- Cell_build_geometry (Cell_init cm init_v act refs) ;;
       Ok (dict_set triple_eqb res triple C)
  else Ok res.

Definition get_fundamental_cells (cox_mat : matrix) (gens : list nat)
  (reflections : list (vec -> vec)) (active : list bool) (init_v : vec)
  : result (list (list nat * Cell)) :=
  foldM (fundamental_cells_step cox_mat reflections active init_v)
        (combinations gens 3) [].

(** [Honeycomb.__init__]. *)
Definition Honeycomb_init (coxeter_diagram : list Z) (init_dist : list F)
  : result Honeycomb :=
  if negb (length coxeter_diagram =? 6) || negb (length init_dist =? 4)
  then Raise (ValueError "Invalid input dimension")
  else
    let cox_mat := make_symmetry_matrix coxeter_diagram in
    let rank := length cox_mat in
    let gens := seq 0 rank in
    let active := map (fun x => negb (feqb x f0)) init_dist in
    let mirrors := get_mirrors coxeter_diagram in
    let reflections := get_reflections mirrors in
    let init_v := get_init_point mirrors init_dist in
    cells <- get_fundamental_cells cox_mat gens reflections active init_v ;;
    Ok (mkHoneycomb cox_mat rank gens active mirrors reflections init_v
          cells [] 0 0).

Definition Honeycomb_transform (h : Honeycomb) (w : word) (v : vec)
  : result key :=
  transform (reflections h) w v.

Definition set_edge_hash_set (h : Honeycomb) (s : list key) : Honeycomb :=
  mkHoneycomb (cox_mat h) (rank h) (gens h) (active h) (mirrors h)
    (reflections h) (init_v h) (fundamental_cells h)
    s (num_vertices h) (num_edges h).

Definition set_num_vertices (h : Honeycomb) (n : nat) : Honeycomb :=
  mkHoneycomb (cox_mat h) (rank h) (gens h) (active h) (mirrors h)
    (reflections h) (init_v h) (fundamental_cells h)
    (edge_hash_set h) n (num_edges h).

Definition set_num_edges (h : Honeycomb) (n : nat) : Honeycomb :=
  mkHoneycomb (cox_mat h) (rank h) (gens h) (active h) (mirrors h)
    (reflections h) (init_v h) (fundamental_cells h)
    (edge_hash_set h) (num_vertices h) n.

Definition is_new_edge (h : Honeycomb) (e : edge) : Honeycomb * bool :=
  let mid := centroid e in
  if negb (key_mem mid (edge_hash_set h))
  then (set_edge_hash_set h (set_add mid (edge_hash_set h)), true)
  else (h, false).

(** Body of the inner loop of [collect_fundamental_cell_edges]. *)
Definition collect_step (st : Honeycomb * list edge) (e : edge)
  : Honeycomb * list edge :=
  let (h', new) := is_new_edge (fst st) e in
  if new then (h', snd st ++ [e]) else (h', snd st).

Definition collect_fundamental_cell_edges (h : Honeycomb)
  : Honeycomb * list edge :=
  fold_left
    (fun st C => fold_left collect_step (Cell_edge_coords C) st)
    (map snd (fundamental_cells h)) (h, []).

(** *** Export *)

(** One [write] to the output file. *)
Inductive pov_line : Type :=
| DeclareCameraLoc (v : string)        (* #declare camera_loc = v; *)
| DeclareLookat (v : string)           (* #declare lookat = v; *)
| HyperbolicEdge (p1 p2 : string)      (* HyperbolicEdge(p1, p2) *)
| DeclareNumVertices (n : nat)         (* #declare num_vertices = n; *)
| DeclareVertices (n : nat) (vs : string).
                                       (* #declare vertices = array[n]{vs}; *)

Definition export_edge (fobj : list pov_line) (p1 p2 : vec) : list pov_line :=
  fobj ++ [HyperbolicEdge (pov_vector p1) (pov_vector p2)].

(** What a call of [generate_povray_data] mutates: the instance, the
    open file [f] and the local set [vertices]. *)
Record export_state : Type := mkState {
  st_self : Honeycomb;
  st_f : list pov_line;
  st_vertices : list key
}.

(** The camera test of [add_new_edge] on a projected endpoint. *)
Definition in_view (eye viewdir p : vec) : bool :=
  fgtb (dot (vsub p eye) viewdir) fhalf.

(** Body of the loop [for v in [p1, p2]] of [add_new_edge]. *)
Definition add_vertex (st : export_state) (v : vec) : export_state :=
  let v := vround v in
  if negb (key_mem v (st_vertices st))
  then mkState (set_num_vertices (st_self st) (num_vertices (st_self st) + 1))
               (st_f st) (set_add v (st_vertices st))
  else st.

Definition add_new_edge (eye viewdir : vec) (st : export_state) (e : edge)
  : export_state :=
  let p1 := project (fst e) in
  let p2 := project (snd e) in
  if in_view eye viewdir p1 || in_view eye viewdir p2
  then
    let f' := export_edge (st_f st) p1 p2 in
    let h' := set_num_edges (st_self st) (num_edges (st_self st) + 1) in
    fold_left add_vertex [p1; p2] (mkState h' f' (st_vertices st))
  else st.

(** Body of the loop [for edge in init_edges] under [for word in ...]. *)
Definition expand_edge (eye viewdir : vec) (w : word) (st : export_state)
  (e : edge) : result export_state :=
  p <- Honeycomb_transform (st_self st) w (fst e) ;;
  q <- Honeycomb_transform (st_self st) w (snd e) ;;
  let e' := (p, q) in
  let (h', new) := is_new_edge (st_self st) e' in
  let st' := mkState h' (st_f st) (st_vertices st) in
  if new then Ok (add_new_edge eye viewdir st' e') else Ok st'.

Definition expand_word (eye viewdir : vec) (init_edges : list edge)
  (st : export_state) (w : word) : result export_state :=
  foldM (expand_edge eye viewdir w) init_edges st.

(** [generate_povray_data]: the instance after the call and the lines
    written to the file.  The progress bar is not modelled, nor is the
    opening of [filename], which can fail; the set [vertices] reaches
    [pov_vector_list] as the list of its keys in insertion order, the
    order in which the helper visits a set being its own. *)
Definition generate_povray_data (h : Honeycomb) (depth maxcount : nat)
  (eye lookat : vec) : result (Honeycomb * list pov_line) :=
  let word_generator := traverse (cox_mat h) (Some depth) (Some maxcount) in
  let (h1, init_edges) := collect_fundamental_cell_edges h in
  let viewdir := normalize (vsub lookat eye) in
  let st0 := mkState h1
               [DeclareCameraLoc (pov_vector eye);
                DeclareLookat (pov_vector lookat)] [] in
  let st1 := fold_left (add_new_edge eye viewdir) init_edges st0 in
  st2 <- foldM (expand_word eye viewdir init_edges) word_generator st1 ;;
  let n := num_vertices (st_self st2) in
  Ok (st_self st2,
      st_f st2 ++ [DeclareNumVertices n;
                   DeclareVertices n (pov_vector_list (st_vertices st2))]).

(** *** Notions used to state the properties *)

(** A triple passes the degeneracy test of [get_fundamental_cells]. *)
Definition admissible (cox_mat : matrix) (reflections : list (vec -> vec))
  (active : list bool) (triple : list nat) : bool :=
  match restrict cox_mat reflections active triple with
  | Ok (cm, _, act) => negb (is_degenerate cm act)
  | Raise _ => false
  end.

(** The cell [get_fundamental_cells] builds for a triple. *)
Definition build_cell (cox_mat : matrix) (reflections : list (vec -> vec))
  (active : list bool) (init_v : vec) (triple : list nat) : result Cell :=
  '(cm, refs, act) <- restrict cox_mat reflections active triple ;;
  Cell_build_geometry (Cell_init cm init_v act refs).

(** An edge as [get_edges] makes it from a word of the traversal and an
    active generator: both endpoints are results of [transform], that
    is, rounded points. *)
Definition made_by_transform (c : Cell) (words : list word) (e : edge) : Prop :=
  exists w i u1 u2,
    In w words
    /\ nth_error (Cell_active c) i = Some true
    /\ apply_word (Cell_reflections c) w (Cell_v0 c) = Ok u1
    /\ apply_word (Cell_reflections c) (w ++ [i]) (Cell_v0 c) = Ok u2
    /\ e = (vround u1, vround u2).

(** What an export never assigns. *)
Definition same_config (h h' : Honeycomb) : Prop :=
  cox_mat h' = cox_mat h
  /\ reflections h' = reflections h
  /\ fundamental_cells h' = fundamental_cells h.

(** [s'] is [s] with keys added at its end. *)
Definition extends (s s' : list key) : Prop := exists t, s' = s ++ t.

(** How the state of [collect_fundamental_cell_edges] moves: the
    registry grows by as many keys as edges are collected, and nothing
    else of the instance changes. *)
Definition collected (s s' : Honeycomb * list edge) : Prop :=
  extends (edge_hash_set (fst s)) (edge_hash_set (fst s'))
  /\ same_config (fst s) (fst s')
  /\ num_edges (fst s') = num_edges (fst s)
  /\ num_vertices (fst s') = num_vertices (fst s)
  /\ length (edge_hash_set (fst s')) + length (snd s)
     = length (edge_hash_set (fst s)) + length (snd s').

(** Every edge of every fundamental cell has its midpoint in the
    registry. *)
Definition registered (cells : list Cell) (s : list key) : Prop :=
  Forall (fun C =>
            Forall (fun e => key_mem (centroid e) s = true)
                   (Cell_edge_coords C))
         cells.

(** The emitted edge count never exceeds the size of the registry. *)
Definition count_bounded (h : Honeycomb) : Prop :=
  num_edges h <= length (edge_hash_set h).

(** [later eye viewdir st st']: [st'] is reached from [st] by the body
    of the expansion loop, run any number of times on any words and
    edges. *)
Inductive later (eye viewdir : vec) : export_state -> export_state -> Prop :=
| later_refl : forall st, later eye viewdir st st
| later_step : forall st st1 st2 w e,
    later eye viewdir st st1 ->
    expand_edge eye viewdir w st1 e = Ok st2 ->
    later eye viewdir st st2.

(** No key of the list is equal to a key before it. *)
Definition distinct_keys (l : list key) : Prop :=
  forall l1 k l2, l = l1 ++ k :: l2 -> key_mem k l1 = false.

(** Every letter of the word is the index of a reflection. *)
Definition word_in_range (reflections : list (vec -> vec)) (w : word) : bool :=
  forallb (fun g => g <? length reflections) w.

(** The line is a HyperbolicEdge record. *)
Definition is_edge_line (l : pov_line) : Prop :=
  exists p q : vec, l = HyperbolicEdge (pov_vector p) (pov_vector q).

(** Both endpoints of the edge are left as they are by [vround]. *)
Definition rounded_edge (e : edge) : Prop :=
  vround (fst e) = fst e /\ vround (snd e) = snd e.

(** What the two loops of [get_edges] keep: the local set [edgehash]
    holds the midpoints of the stored edges, in their order, and no two
    of them are equal. *)
Definition edges_hashed (st : list edge * list key) : Prop :=
  snd st = map centroid (fst st) /\ distinct_keys (snd st).

(** What [add_new_edge] keeps of the file and the counters during an
    export that started after the lines [hdr] with [n0] edges and [m0]
    vertices counted: the file is [hdr] followed by edge records, one
    per edge counted since; the vertex counter has grown by the size of
    the local set [vertices], whose keys are pairwise different and at
    most two per edge record. *)
Definition file_inv (hdr : list pov_line) (n0 m0 : nat) (st : export_state)
  : Prop :=
  exists lines,
    st_f st = hdr ++ lines
    /\ Forall is_edge_line lines
    /\ num_edges (st_self st) = n0 + length lines
    /\ num_vertices (st_self st) = m0 + length (st_vertices st)
    /\ length (st_vertices st) <= 2 * length lines
    /\ distinct_keys (st_vertices st).

(** The edge is an edge of one of the fundamental cells. *)
Definition cell_edge (h : Honeycomb) (e : edge) : Prop :=
  exists C, In C (map snd (fundamental_cells h)) /\ In e (Cell_edge_coords C).

(** The state of [collect_fundamental_cell_edges] on the instance [h]:
    the instance is [h] with the midpoints of the collected edges added
    to its registry, and the collected edges are edges of cells. *)
Definition collecting (h : Honeycomb) (st : Honeycomb * list edge) : Prop :=
  fst st = set_edge_hash_set h (edge_hash_set h ++ map centroid (snd st))
  /\ Forall (cell_edge h) (snd st)
  /\ (distinct_keys (edge_hash_set h) -> distinct_keys (edge_hash_set (fst st))).

(** The camera test of [add_new_edge] on an edge, and the record it
    writes for one. *)
Definition visible (eye viewdir : vec) (e : edge) : bool :=
  in_view eye viewdir (project (fst e)) || in_view eye viewdir (project (snd e)).

Definition edge_record (e : edge) : pov_line :=
  HyperbolicEdge (pov_vector (project (fst e))) (pov_vector (project (snd e))).

End Program.

Arguments collect_step {F FO HP} st e.

(** ** A runnable instance: exact rational coordinates

    The operations on rationals in lowest terms, the four coordinate
    hyperplanes of the 4-space as mirrors (every pair of them is
    orthogonal: the diagram with all six entries 2), and the group of
    sign changes they generate, whose elements are the increasing words.
    The helpers of this instance stand for the absent module [helpers]
    on this one configuration; [normalize] and [project_poincare] are
    the identity and the first three coordinates. *)

Module Rational.

Import QArith.
Local Open Scope Q_scope.

(** Rounding of a rational to the nearest integer, ties to even. *)
Definition rint (q : Q) : Z :=
  let n := Qnum q in
  let d := Zpos (Qden q) in
  let fl := (n / d)%Z in
  let r2 := (2 * (n - fl * d))%Z in
  if (r2 <? d)%Z then fl
  else if (d <? r2)%Z then (fl + 1)%Z
  else if Z.even fl then fl else (fl + 1)%Z.

Definition round8 (q : Q) : Q :=
  Qred (rint (q * (100000000 # 1)) # 100000000).

#[export] Instance Q_FloatOps : FloatOps Q := {|
  f0 := 0;
  f2 := 2;
  fhalf := 1 # 2;
  fadd := fun a b => Qred (a + b);
  fsub := fun a b => Qred (a - b);
  fmul := fun a b => Qred (a * b);
  fgtb := fun a b => negb (Qle_bool a b);
  feqb := Qeq_bool;
  fround8 := round8
|}.

Definition unit_vectors : list (list Q) :=
  [ [1; 0; 0; 0]; [0; 1; 0; 0]; [0; 0; 1; 0]; [0; 0; 0; 1] ].

#[export] Instance Q_Helpers : Helpers Q := {|
  normalize := fun v => v;
  project_poincare := fun v => firstn 3 v;
  is_degenerate := fun _ act => negb (forallb (fun b => b) act);
  get_hyperbolic_honeycomb_mirrors := fun _ => unit_vectors;
  get_point_from_distance := fun _ d => d;
  pov_vector := fun _ => EmptyString;
  pov_vector_list := fun _ => EmptyString
|}.

Definition bounded (o : option nat) (n : nat) : nat :=
  match o with
  | Some b => Nat.min b n
  | None => n
  end.

(** The increasing words in the generators, by length, up to [depth]
    letters and [maxcount] words. *)
#[export] Instance sign_changes : CoxeterGroup := {|
  traverse := fun m depth maxcount =>
    let n := List.length m in
    let ws := concat (map (combinations (seq 0 n))
                          (seq 0 (bounded depth n + 1))) in
    firstn (bounded maxcount (List.length ws)) ws
|}.

Definition diagram0 : list Z := [2; 2; 2; 2; 2; 2]%Z.

(** The first coordinate is 1 + 2^-30. *)
Definition dist0 : list Q := [1073741825 # 1073741824; 1; 1; 0].

Definition eye0 : list Q := [0; 0; 1 # 2].
Definition lookat0 : list Q := [0; 0; 0].

(** The cell of the generators 0, 1, 2 at the point [dist0]. *)
Definition cox_mat0 : matrix :=
  [ [1; 2; 2]; [2; 1; 2]; [2; 2; 1] ]%Z.

Definition reflections0 : list (list Q -> list Q) :=
  get_reflections (firstn 3 unit_vectors).

Definition cell0 : Cell Q :=
  Cell_init cox_mat0 dist0 [true; true; true] reflections0.

(** Helpers that return three mirrors only. *)
Definition Q_Helpers_three : Helpers Q := {|
  normalize := fun v => v;
  project_poincare := fun v => firstn 3 v;
  is_degenerate := fun _ act => negb (forallb (fun b => b) act);
  get_hyperbolic_honeycomb_mirrors := fun _ => firstn 3 unit_vectors;
  get_point_from_distance := fun _ d => d;
  pov_vector := fun _ => EmptyString;
  pov_vector_list := fun _ => EmptyString
|}.

(** An edge between two vertices of the cube, along the first axis. *)
Definition edge0 : list Q * list Q := ([1; 1; 1; 0], [-1; 1; 1; 0]).

End Rational.

(** ** An instance without rounding error: rationals in canonical form

    The operations of [Qcanon] form a field for the equality of Rocq;
    only [fround8] rounds. *)

Module Exact.

Import QArith Qcanon.




End Exact.

(** ** The instance of the program: binary64 floats

    The scalars numpy computes with.  [np.round(x, 8)] multiplies by
    10^8, rounds to the nearest integer (ties to even) and divides by
    10^8; below 2^52 the rounding to an integer is the addition and
    subtraction of 2^52, and from 2^52 on every float is an integer. *)

Module Binary64.

Import PrimFloat.
Local Open Scope float_scope.

Definition two52 : float := 0x1p+52.

Definition rint (x : float) : float :=
  if ltb (abs x) two52
  then if ltb x 0 then (x - two52) + two52 else (x + two52) - two52
  else x.

Definition round8 (x : float) : float := rint (x * 100000000) / 100000000.

#[export] Instance B64_FloatOps : FloatOps float := {|
  f0 := 0;
  f2 := 2;
  fhalf := 0.5;
  fadd := add;
  fsub := sub;
  fmul := mul;
  fgtb := fun a b => ltb b a;
  feqb := eqb;
  fround8 := round8
|}.



End Binary64.

(** * Properties *)

(** ** The exception monad *)

Lemma bind_Ok {A B : Type} (c : result A) (k : A -> result B) (b : B) :
  bind c k = Ok b -> exists a, c = Ok a /\ k a = Ok b.
Proof.
  destruct c as [a|e]; simpl; intros H; [eauto | discriminate].
Qed.

Lemma is_ok_Ok {A : Type} (r : result A) :
  is_ok r = true -> exists a, r = Ok a.
Proof. destruct r as [a|e]; simpl; intros H; [eauto | discriminate]. Qed.

Lemma foldM_app {A B : Type} (f : A -> B -> result A) (l1 l2 : list B) (a : A) :
  foldM f (l1 ++ l2) a = (a' <- foldM f l1 a ;; foldM f l2 a').
Proof.
  revert a; induction l1 as [|x l1 IH]; intros a; simpl; [reflexivity|].
  destruct (f a x); simpl; auto.
Qed.

Lemma foldM_ext {A B : Type} (f g : A -> B -> result A) (l : list B) (a : A) :
  (forall a x, f a x = g a x) -> foldM f l a = foldM g l a.
Proof.
  intros E; revert a; induction l as [|x l IH]; intros a; simpl; [reflexivity|].
  rewrite E. destruct (g a x); simpl; auto.
Qed.

(** An invariant of the body of a loop holds when the loop ends. *)
Lemma foldM_invariant {A B : Type} (P : A -> Prop) (f : A -> B -> result A)
  (l : list B) :
  (forall a x a', P a -> f a x = Ok a' -> P a') ->
  forall a a', P a -> foldM f l a = Ok a' -> P a'.
Proof.
  intros Hstep; induction l as [|x l IH]; intros a a' Pa H; simpl in H.
  - injection H as <-; exact Pa.
  - apply bind_Ok in H as (a1 & H1 & H2). eauto.
Qed.


Lemma index_only_Ok {A : Type} (a : A) : index_only (Ok a).
Proof. intros e H; discriminate. Qed.

Lemma index_only_bind {A B : Type} (c : result A) (k : A -> result B) :
  index_only c -> (forall a, index_only (k a)) -> index_only (bind c k).
Proof.
  intros Hc Hk e; destruct c as [a|e']; simpl; intros H.
  - exact (Hk a e H).
  - injection H as <-; apply Hc; reflexivity.
Qed.

Lemma index_only_subscript {A : Type} (l : list A) (i : nat) :
  index_only (subscript l i).
Proof.
  unfold subscript; intros e; destruct (nth_error l i); intros H;
    [discriminate | injection H as <-; reflexivity].
Qed.

Lemma index_only_foldM {A B : Type} (f : A -> B -> result A) (l : list B) :
  (forall a x, index_only (f a x)) -> forall a, index_only (foldM f l a).
Proof.
  intros Hf; induction l as [|x l IH]; intros a; simpl.
  - apply index_only_Ok.
  - apply index_only_bind; auto.
Qed.

Lemma index_only_mapM {A B : Type} (f : A -> result B) (l : list A) :
  (forall x, index_only (f x)) -> index_only (mapM f l).
Proof.
  intros Hf; induction l as [|x l IH]; simpl.
  - apply index_only_Ok.
  - apply index_only_bind; [auto|]; intros y.
    apply index_only_bind; [auto|]; intros ys. apply index_only_Ok.
Qed.

Ltac index_only_tac :=
  repeat first
    [ apply index_only_Ok
    | apply index_only_subscript
    | apply index_only_bind; [|intros ?]
    | apply index_only_foldM; intros ? ?
    | apply index_only_mapM; intros ?
    | match goal with
      | |- index_only (if ?b then _ else _) => destruct b
      | |- index_only (match ?x with pair _ _ => _ end) => destruct x
      end ].

(** ** Dictionaries and combinations *)

Lemma dict_set_fresh {K V : Type} (keq : K -> K -> bool) (d : list (K * V))
  (k : K) (v : V) :
  (forall kv, In kv d -> keq (fst kv) k = false) ->
  dict_set keq d k v = d ++ [(k, v)].
Proof.
  induction d as [|[k' v'] d IH]; intros Hd; simpl; [reflexivity|].
  pose proof (Hd (k', v') (or_introl eq_refl)) as E; simpl in E; rewrite E.
  rewrite IH; [reflexivity|]. intros kv Hkv; apply Hd; right; exact Hkv.
Qed.

Lemma combinations_4_3 :
  combinations [0; 1; 2; 3] 3 = [[0; 1; 2]; [0; 1; 3]; [0; 2; 3]; [1; 2; 3]].
Proof. reflexivity. Qed.

Lemma NoDup_combinations_4_3 : NoDup (combinations [0; 1; 2; 3] 3).
Proof.
  rewrite combinations_4_3.
  repeat (constructor; [simpl; intuition discriminate|]). constructor.
Qed.

Section Construction.

Context {F : Type} {FO : FloatOps F} {HP : Helpers F} {CG : CoxeterGroup}.

Local Abbreviation vec := (vec F).
Local Abbreviation Cell := (Cell F).
Local Abbreviation Honeycomb := (Honeycomb F).

(** ** Exceptions of the construction *)

Lemma index_only_transform (refl : list (vec -> vec)) (w : word) (v : vec) :
  index_only (transform refl w v).
Proof. unfold transform, apply_word. index_only_tac. Qed.

Lemma index_only_build_geometry (c : Cell) :
  index_only (Cell_build_geometry c).
Proof.
  unfold Cell_build_geometry, Cell_get_vertices, Cell_get_edges,
    get_edges_gen, get_edges_step, get_vertices_step, Cell_transform.
  index_only_tac; apply index_only_transform.
Qed.

Lemma index_only_restrict (cm : matrix) (refl : list (vec -> vec))
  (act : list bool) (t : list nat) :
  index_only (restrict cm refl act t).
Proof. unfold restrict, ix_. index_only_tac. Qed.

Lemma index_only_get_fundamental_cells (cm : matrix) (g : list nat)
  (refl : list (vec -> vec)) (act : list bool) (v0 : vec) :
  index_only (get_fundamental_cells cm g refl act v0).
Proof.
  unfold get_fundamental_cells, fundamental_cells_step.
  apply index_only_foldM; intros res t.
  apply index_only_bind; [apply index_only_restrict|].
  intros [[m r] a]. destruct (negb (is_degenerate m a)).
  - apply index_only_bind; [apply index_only_build_geometry|].
    intros C; apply index_only_Ok.
  - apply index_only_Ok.
Qed.

(** C5.  [Honeycomb.__init__] raises its [ValueError] ("Invalid input
    dimension", the spec's InvalidInputError) exactly when the diagram
    does not have 6 values or the distances do not have 4.  The test is
    the first statement of the constructor: the statement holds for
    every implementation of the helpers and of the group engine, none of
    which is consulted before it, and the constructor writes no file. *)
Theorem C5_invalid_input_dimension (coxeter_diagram : list Z) (init_dist : list F) :
  (Honeycomb_init coxeter_diagram init_dist
     = Raise (ValueError "Invalid input dimension")
   <-> (length coxeter_diagram <> 6 \/ length init_dist <> 4))
  /\ (forall msg, Honeycomb_init coxeter_diagram init_dist
                    = Raise (ValueError msg)
        -> length coxeter_diagram <> 6 \/ length init_dist <> 4).
Proof.
  assert (G : forall msg,
             Honeycomb_init coxeter_diagram init_dist = Raise (ValueError msg)
             -> length coxeter_diagram <> 6 \/ length init_dist <> 4).
  { intros msg H. unfold Honeycomb_init in H.
    destruct (Nat.eqb_spec (length coxeter_diagram) 6) as [E6|N6];
      [|left; exact N6].
    destruct (Nat.eqb_spec (length init_dist) 4) as [E4|N4];
      [|right; exact N4].
    simpl in H. exfalso.
    match type of H with
    | bind ?c ?k = _ =>
        assert (I : index_only (bind c k))
    end.
    { apply index_only_bind;
        [apply index_only_get_fundamental_cells | intros; apply index_only_Ok]. }
    specialize (I _ H). discriminate. }
  split; [split|exact G].
  - apply G.
  - intros H. unfold Honeycomb_init.
    destruct H as [H|H].
    + apply Nat.eqb_neq in H. rewrite H. reflexivity.
    + apply Nat.eqb_neq in H. rewrite H. rewrite orb_true_r. reflexivity.
Qed.

(** ** The dict of fundamental cells *)

Lemma triple_eqb_false (a b : list nat) : a <> b -> triple_eqb a b = false.
Proof.
  intros N; unfold triple_eqb; destruct (list_eq_dec Nat.eq_dec a b);
    [contradiction | reflexivity].
Qed.

Lemma fundamental_cells_step_degenerate (cm : matrix)
  (refl : list (vec -> vec)) (act : list bool) (v0 : vec)
  (res : list (list nat * Cell)) (t : list nat)
  (m : matrix) (r : list (vec -> vec)) (a : list bool) :
  restrict cm refl act t = Ok (m, r, a) ->
  is_degenerate m a = true ->
  fundamental_cells_step cm refl act v0 res t = Ok res.
Proof.
  intros R D. unfold fundamental_cells_step. rewrite R; simpl.
  rewrite D; reflexivity.
Qed.

Lemma get_fundamental_cells_loop (cm : matrix) (refl : list (vec -> vec))
  (act : list bool) (v0 : vec) (l : list (list nat)) :
  NoDup l ->
  forall res cells,
    (forall t, In t l -> ~ In t (map fst res)) ->
    foldM (fundamental_cells_step cm refl act v0) l res = Ok cells ->
    exists added,
      cells = res ++ added
      /\ map fst added = filter (admissible cm refl act) l
      /\ Forall (fun kc => build_cell cm refl act v0 (fst kc) = Ok (snd kc)) added.
Proof.
  induction 1 as [|t l Ht ND IH]; intros res cells Hres H; simpl in H.
  - injection H as <-. exists []. rewrite app_nil_r. auto.
  - apply bind_Ok in H as (res1 & H1 & H2).
    unfold fundamental_cells_step in H1.
    apply bind_Ok in H1 as ([[m r] a] & R & H1).
    simpl filter. unfold admissible at 1. rewrite R.
    destruct (is_degenerate m a) eqn:D; simpl in H1.
    + injection H1 as <-.
      apply IH in H2; [|intros t' Ht'; apply Hres; right; exact Ht'].
      exact H2.
    + apply bind_Ok in H1 as (C & B & H1). injection H1 as <-.
      rewrite dict_set_fresh in H2.
      2:{ intros kv Hkv. apply triple_eqb_false. intros E.
          apply (Hres t (or_introl eq_refl)). rewrite <- E.
          apply in_map; exact Hkv. }
      apply IH in H2.
      2:{ intros t' Ht' Hin. rewrite map_app in Hin. apply in_app_or in Hin.
          destruct Hin as [Hin|Hin].
          - apply (Hres t' (or_intror Ht')); exact Hin.
          - simpl in Hin. destruct Hin as [<-|[]]. contradiction. }
      destruct H2 as (added & -> & K & B').
      exists ((t, C) :: added). rewrite <- app_assoc. simpl.
      split; [reflexivity|]. split; [f_equal; exact K|].
      constructor; [|exact B'].
      unfold build_cell; simpl. rewrite R; simpl. exact B.
Qed.

Lemma NoDup_filter {A : Type} (p : A -> bool) (l : list A) :
  NoDup l -> NoDup (filter p l).
Proof.
  induction 1 as [|x l Hx ND IH]; simpl; [constructor|].
  destruct (p x); [constructor|]; auto.
  intros Hin; apply filter_In in Hin; tauto.
Qed.

(** C1 (amended).  A constructed honeycomb has the four generators
    0..3; their 3-element subsets are the four triples (0,1,2), (0,1,3),
    (0,2,3), (1,2,3); the keys of [fundamental_cells] are, in this order
    and without repetition, the triples that pass the degeneracy test,
    and the value at each key is the cell built from the restricted
    matrix, reflections and active flags.  A degenerate triple leaves the
    dict as it is and raises nothing. *)
Theorem C1_fundamental_cells (coxeter_diagram : list Z) (init_dist : list F)
  (h : Honeycomb) :
  Honeycomb_init coxeter_diagram init_dist = Ok h ->
  gens h = [0; 1; 2; 3]
  /\ combinations (gens h) 3 = [[0; 1; 2]; [0; 1; 3]; [0; 2; 3]; [1; 2; 3]]
  /\ map fst (fundamental_cells h)
     = filter (admissible (cox_mat h) (reflections h) (active h))
              (combinations (gens h) 3)
  /\ NoDup (map fst (fundamental_cells h))
  /\ Forall (fun kc => build_cell (cox_mat h) (reflections h) (active h)
                         (init_v h) (fst kc) = Ok (snd kc))
            (fundamental_cells h)
  /\ (forall res t m r a,
         restrict (cox_mat h) (reflections h) (active h) t = Ok (m, r, a) ->
         is_degenerate m a = true ->
         fundamental_cells_step (cox_mat h) (reflections h) (active h)
           (init_v h) res t = Ok res).
Proof.
  intros H. unfold Honeycomb_init in H.
  destruct (negb (length coxeter_diagram =? 6) || negb (length init_dist =? 4));
    [discriminate|].
  apply bind_Ok in H as (cells & G & H). injection H as <-. simpl.
  unfold get_fundamental_cells in G.
  apply get_fundamental_cells_loop in G;
    [| exact NoDup_combinations_4_3 | intros t _ []].
  destruct G as (added & -> & K & B). simpl.
  repeat split; auto.
  - rewrite K. apply NoDup_filter. exact NoDup_combinations_4_3.
  - intros res t m r a. apply fundamental_cells_step_degenerate.
Qed.

End Construction.

(** C1, as stated: the 3-element subsets of the 4 generators are not 6
    in number; [combinations] yields four. *)
Lemma C1_six_subsets_refuted :
  length (combinations (seq 0 (length (make_symmetry_matrix [2; 2; 2; 2; 2; 2]%Z))) 3) = 4
  /\ length (combinations (seq 0 (length (make_symmetry_matrix [2; 2; 2; 2; 2; 2]%Z))) 3) <> 6.
Proof. split; [reflexivity | discriminate]. Qed.

(** ** Loops over lists *)

(** As [foldM_invariant], with the element known to be in the list. *)
Lemma foldM_invariant_In {A B : Type} (P : A -> Prop) (f : A -> B -> result A)
  (l : list B) :
  (forall a x a', In x l -> P a -> f a x = Ok a' -> P a') ->
  forall a a', P a -> foldM f l a = Ok a' -> P a'.
Proof.
  induction l as [|x l IH]; intros Hstep a a' Pa H; simpl in H.
  - injection H as <-; exact Pa.
  - apply bind_Ok in H as (a1 & H1 & H2).
    apply IH with (a := a1); auto.
    + intros b y b' Hy; apply Hstep; right; exact Hy.
    + apply (Hstep a x a1); auto. left; reflexivity.
Qed.

Lemma In_combine_seq {A : Type} (l : list A) (s i : nat) (x : A) :
  In (i, x) (combine (seq s (length l)) l) ->
  s <= i /\ nth_error l (i - s) = Some x.
Proof.
  revert s; induction l as [|y l IH]; intros s H; simpl in H; [contradiction|].
  destruct H as [H|H].
  - injection H as <- <-. rewrite Nat.sub_diag. auto.
  - apply IH in H as [L N]. split; [lia|].
    replace (i - s) with (S (i - S s)) by lia. exact N.
Qed.

Lemma In_enumerate {A : Type} (l : list A) (i : nat) (x : A) :
  In (i, x) (enumerate l) -> nth_error l i = Some x.
Proof.
  intros H; apply In_combine_seq in H as [_ H].
  rewrite Nat.sub_0_r in H; exact H.
Qed.

Section Cells.

Context {F : Type} {FO : FloatOps F} {HP : Helpers F} {CG : CoxeterGroup}.

Local Abbreviation vec := (vec F).
Local Abbreviation edge := (edge F).
Local Abbreviation Cell := (Cell F).


Lemma get_edges_step_made (c : Cell) (i : nat) (w : word)
  (st st' : list edge * list (key F)) :
  In w (Cell_words c) ->
  nth_error (Cell_active c) i = Some true ->
  Forall (made_by_transform c (Cell_words c)) (fst st) ->
  get_edges_step c i st w = Ok st' ->
  Forall (made_by_transform c (Cell_words c)) (fst st').
Proof.
  intros Hw Hi Hst H. unfold get_edges_step, Cell_transform, transform in H.
  apply bind_Ok in H as (p1 & H1 & H).
  apply bind_Ok in H as (p2 & H2 & H).
  apply bind_Ok in H1 as (u1 & U1 & E1). injection E1 as <-.
  apply bind_Ok in H2 as (u2 & U2 & E2). injection E2 as <-.
  destruct (negb (key_mem (centroid (vround u1, vround u2)) (snd st)));
    injection H as <-; [|exact Hst].
  simpl. apply Forall_app; split; [exact Hst|].
  constructor; [|constructor].
  exists w, i, u1, u2. auto.
Qed.

Lemma get_edges_made (c c' : Cell) :
  Forall (made_by_transform c (Cell_words c)) (Cell_edge_coords c) ->
  Cell_get_edges c = Ok c' ->
  Forall (made_by_transform c (Cell_words c)) (Cell_edge_coords c').
Proof.
  intros H0 H. unfold Cell_get_edges in H.
  apply bind_Ok in H as (st & L & H). injection H as <-. simpl.
  revert L.
  apply (foldM_invariant_In
           (fun st => Forall (made_by_transform c (Cell_words c)) (fst st)));
    [|exact H0].
  intros a [i b] a' Hin Pa Hg. unfold get_edges_gen in Hg; simpl in Hg.
  destruct b; [|injection Hg as <-; exact Pa].
  apply In_enumerate in Hin. revert Hg.
  apply (foldM_invariant_In
           (fun st => Forall (made_by_transform c (Cell_words c)) (fst st)));
    [|exact Pa].
  intros s w s' Hw Ps Hs. eapply get_edges_step_made; eauto.
Qed.

(** C2 (amended).  Every edge a freshly created cell stores during
    [build_geometry] is the pair of the two values [transform] returns
    for a word of the traversal and for that word extended by an active
    generator: both stored endpoints are rounded to 8 decimals, as the
    midpoint key is. *)
Theorem C2_stored_edges_are_rounded (cox_mat : matrix) (v0 : vec)
  (active : list bool) (reflections : list (vec -> vec)) (C : Cell) :
  Cell_build_geometry (Cell_init cox_mat v0 active reflections) = Ok C ->
  Forall (fun e =>
            exists w i u1 u2,
              In w (traverse cox_mat None None)
              /\ nth_error active i = Some true
              /\ apply_word reflections w v0 = Ok u1
              /\ apply_word reflections (w ++ [i]) v0 = Ok u2
              /\ e = (vround u1, vround u2))
         (Cell_edge_coords C).
Proof.
  intros H. unfold Cell_build_geometry in H.
  apply bind_Ok in H as (c2 & V & E).
  unfold Cell_get_vertices in V.
  apply bind_Ok in V as (vs & _ & V). injection V as <-.
  apply get_edges_made in E; [|constructor].
  exact E.
Qed.

End Cells.

Section Emission.

Context {F : Type} {FO : FloatOps F} {HP : Helpers F}.

Local Abbreviation vec := (vec F).
Local Abbreviation edge := (edge F).
Local Abbreviation export_state := (export_state F).

Lemma st_f_add_vertex (st : export_state) (v : vec) :
  st_f (add_vertex st v) = st_f st.
Proof. unfold add_vertex; destruct (negb _); reflexivity. Qed.

Lemma list_neq_app_one {A : Type} (l : list A) (x : A) : l <> l ++ [x].
Proof.
  intros E. apply (f_equal (@length A)) in E.
  rewrite length_app in E; simpl in E; lia.
Qed.

(** The emission step on its own. *)
Lemma add_new_edge_writes (eye viewdir : vec) (st : export_state) (e : edge) :
  let p1 := project (fst e) in
  let p2 := project (snd e) in
  let visible :=
    fgtb (dot (vsub p1 eye) viewdir) fhalf = true
    \/ fgtb (dot (vsub p2 eye) viewdir) fhalf = true in
  (st_f (add_new_edge eye viewdir st e)
     = st_f st ++ [HyperbolicEdge (pov_vector p1) (pov_vector p2)]
   <-> visible)
  /\ (st_f (add_new_edge eye viewdir st e) = st_f st <-> ~ visible).
Proof.
  intros p1 p2 visible. unfold add_new_edge.
  fold p1 p2. unfold in_view. subst visible.
  destruct (fgtb (dot (vsub p1 eye) viewdir) fhalf) eqn:V1;
    [|destruct (fgtb (dot (vsub p2 eye) viewdir) fhalf) eqn:V2]; simpl;
    rewrite ?st_f_add_vertex; simpl; unfold export_edge.
  - split; split; auto.
    + intros E; exfalso; symmetry in E; eapply list_neq_app_one; exact E.
    + intros N; exfalso; apply N; auto.
  - split; split; auto.
    + intros E; exfalso; symmetry in E; eapply list_neq_app_one; exact E.
    + intros N; exfalso; apply N; auto.
  - split; split; auto.
    + intros E; exfalso; eapply list_neq_app_one; exact E.
    + intros [H|H]; discriminate.
    + intros _ [H|H]; discriminate.
Qed.

End Emission.

(** ** The edge registry during an export *)

Section Expansion.

Context {F : Type} {FO : FloatOps F} {HP : Helpers F}.

Local Abbreviation vec := (vec F).
Local Abbreviation key := (key F).
Local Abbreviation edge := (edge F).
Local Abbreviation Honeycomb := (Honeycomb F).
Local Abbreviation export_state := (export_state F).


Lemma same_config_refl (h : Honeycomb) : same_config h h.
Proof. repeat split. Qed.

Lemma same_config_trans (h1 h2 h3 : Honeycomb) :
  same_config h1 h2 -> same_config h2 h3 -> same_config h1 h3.
Proof.
  intros (A1 & B1 & C1) (A2 & B2 & C2); repeat split; congruence.
Qed.

Lemma extends_refl (s : list key) : extends s s.
Proof. exists []; rewrite app_nil_r; reflexivity. Qed.

Lemma extends_trans (s1 s2 s3 : list key) :
  extends s1 s2 -> extends s2 s3 -> extends s1 s3.
Proof.
  intros [t1 ->] [t2 ->]; exists (t1 ++ t2); rewrite app_assoc; reflexivity.
Qed.

Lemma extends_In (s s' : list key) (k : key) :
  extends s s' -> In k s -> In k s'.
Proof. intros [t ->] H; apply in_or_app; left; exact H. Qed.

Lemma extends_length (s s' : list key) : extends s s' -> length s <= length s'.
Proof. intros [t ->]; rewrite length_app; lia. Qed.

Lemma extends_key_mem (s s' : list key) (k : key) :
  extends s s' -> key_mem k s = true -> key_mem k s' = true.
Proof.
  intros [t ->] H; unfold key_mem in *; rewrite existsb_app, H; reflexivity.
Qed.

(** A key that compares equal to a stored key is found in the set. *)
Lemma key_mem_In (s : list key) (k k' : key) :
  In k' s -> key_eqb k k' = true -> key_mem k s = true.
Proof.
  intros Hin E; unfold key_mem; apply existsb_exists; exists k'; auto.
Qed.

(** *** [is_new_edge] *)

Lemma is_new_edge_true (h h' : Honeycomb) (e : edge) :
  is_new_edge h e = (h', true) ->
  key_mem (centroid e) (edge_hash_set h) = false
  /\ edge_hash_set h' = edge_hash_set h ++ [centroid e]
  /\ same_config h h'
  /\ num_vertices h' = num_vertices h
  /\ num_edges h' = num_edges h.
Proof.
  unfold is_new_edge, set_add.
  destruct (key_mem (centroid e) (edge_hash_set h)) eqn:M; simpl; intros H;
    [discriminate|].
  injection H as <-. simpl. repeat split.
Qed.

Lemma is_new_edge_false (h h' : Honeycomb) (e : edge) :
  is_new_edge h e = (h', false) ->
  key_mem (centroid e) (edge_hash_set h) = true /\ h' = h.
Proof.
  unfold is_new_edge.
  destruct (key_mem (centroid e) (edge_hash_set h)) eqn:M; simpl; intros H;
    [|discriminate].
  injection H as <-. auto.
Qed.

Lemma is_new_edge_registered (h : Honeycomb) (e : edge) :
  key_mem (centroid e) (edge_hash_set h) = true -> is_new_edge h e = (h, false).
Proof. intros M; unfold is_new_edge; rewrite M; reflexivity. Qed.

(** *** [add_new_edge] *)

Lemma add_vertex_self (st : export_state) (v : vec) :
  edge_hash_set (st_self (add_vertex st v)) = edge_hash_set (st_self st)
  /\ same_config (st_self st) (st_self (add_vertex st v))
  /\ num_edges (st_self (add_vertex st v)) = num_edges (st_self st)
  /\ num_vertices (st_self st) <= num_vertices (st_self (add_vertex st v)).
Proof.
  unfold add_vertex; destruct (negb _); simpl; repeat split; lia.
Qed.

Lemma add_new_edge_self (eye viewdir : vec) (st : export_state) (e : edge) :
  edge_hash_set (st_self (add_new_edge eye viewdir st e))
    = edge_hash_set (st_self st)
  /\ same_config (st_self st) (st_self (add_new_edge eye viewdir st e))
  /\ num_edges (st_self (add_new_edge eye viewdir st e))
     = num_edges (st_self st)
       + (if in_view eye viewdir (project (fst e))
             || in_view eye viewdir (project (snd e)) then 1 else 0)
  /\ num_vertices (st_self st)
     <= num_vertices (st_self (add_new_edge eye viewdir st e)).
Proof.
  unfold add_new_edge.
  destruct (in_view eye viewdir (project (fst e))
            || in_view eye viewdir (project (snd e))).
  - simpl fold_left.
    match goal with
    | |- context [add_vertex (add_vertex ?s ?a) ?b] =>
        destruct (add_vertex_self s a) as (A1 & B1 & C1 & D1);
        destruct (add_vertex_self (add_vertex s a) b) as (A2 & B2 & C2 & D2)
    end.
    unfold same_config in *. simpl in A1, B1, C1, D1.
    rewrite A2, A1, C2, C1.
    destruct B1 as (X1 & Y1 & Z1), B2 as (X2 & Y2 & Z2).
    repeat split; try reflexivity; try congruence.
    lia.
  - repeat split; lia.
Qed.

Lemma add_new_edge_culled (eye viewdir : vec) (st : export_state) (e : edge) :
  in_view eye viewdir (project (fst e)) = false ->
  in_view eye viewdir (project (snd e)) = false ->
  add_new_edge eye viewdir st e = st.
Proof. intros V1 V2; unfold add_new_edge; rewrite V1, V2; reflexivity. Qed.

(** *** The expansion loop *)

Lemma expand_edge_inv (eye viewdir : vec) (w : word) (st st' : export_state)
  (e : edge) :
  expand_edge eye viewdir w st e = Ok st' ->
  exists p q,
    Honeycomb_transform (st_self st) w (fst e) = Ok p
    /\ Honeycomb_transform (st_self st) w (snd e) = Ok q
    /\ ((key_mem (centroid (p, q)) (edge_hash_set (st_self st)) = true
         /\ st' = st)
        \/ (key_mem (centroid (p, q)) (edge_hash_set (st_self st)) = false
            /\ exists h',
                is_new_edge (st_self st) (p, q) = (h', true)
                /\ st' = add_new_edge eye viewdir
                           (mkState h' (st_f st) (st_vertices st)) (p, q))).
Proof.
  unfold expand_edge. intros H.
  apply bind_Ok in H as (p & P & H). apply bind_Ok in H as (q & Q & H).
  exists p, q. split; [exact P|]. split; [exact Q|].
  destruct (is_new_edge (st_self st) (p, q)) as [h' b] eqn:N.
  destruct b; injection H as <-.
  - right. pose proof (is_new_edge_true _ _ N) as (M & _). eauto.
  - left. apply is_new_edge_false in N as (M & ->).
    split; [exact M|]. destruct st; reflexivity.
Qed.

Lemma expand_edge_self (eye viewdir : vec) (w : word) (st st' : export_state)
  (e : edge) :
  expand_edge eye viewdir w st e = Ok st' ->
  extends (edge_hash_set (st_self st)) (edge_hash_set (st_self st'))
  /\ same_config (st_self st) (st_self st')
  /\ num_edges (st_self st) <= num_edges (st_self st')
  /\ num_vertices (st_self st) <= num_vertices (st_self st')
  /\ (count_bounded (st_self st) -> count_bounded (st_self st')).
Proof.
  intros H. apply expand_edge_inv in H as (p & q & _ & _ & [[_ ->]|[_ H]]).
  - split; [apply extends_refl|]. split; [apply same_config_refl|]. auto.
  - destruct H as (h' & N & ->).
    apply is_new_edge_true in N as (_ & R & S & NV & NE).
    match goal with
    | |- context [add_new_edge ?a ?b ?s ?x] =>
        destruct (add_new_edge_self a b s x) as (A & B & C & D)
    end.
    simpl in A, B, C, D. unfold count_bounded. rewrite A, C, R, NE.
    rewrite length_app; simpl.
    split; [exists [centroid (p, q)]; reflexivity|].
    split; [eapply same_config_trans; eauto|].
    destruct (in_view _ _ _ || in_view _ _ _); (split; [lia|split; lia]).
Qed.

Lemma later_trans (eye viewdir : vec) (st1 st2 st3 : export_state) :
  later eye viewdir st1 st2 -> later eye viewdir st2 st3 ->
  later eye viewdir st1 st3.
Proof.
  intros L12 L23; revert L12.
  induction L23 as [st|st sa sb w e L IH X]; intros L12; [exact L12|].
  eapply later_step; [exact (IH L12) | exact X].
Qed.

Lemma later_self (eye viewdir : vec) (st st' : export_state) :
  later eye viewdir st st' ->
  extends (edge_hash_set (st_self st)) (edge_hash_set (st_self st'))
  /\ same_config (st_self st) (st_self st')
  /\ num_edges (st_self st) <= num_edges (st_self st')
  /\ num_vertices (st_self st) <= num_vertices (st_self st')
  /\ (count_bounded (st_self st) -> count_bounded (st_self st')).
Proof.
  induction 1 as [st|st st1 st2 w e L IH X].
  - split; [apply extends_refl|]. split; [apply same_config_refl|]. auto.
  - destruct IH as (A & B & C & D & E).
    apply expand_edge_self in X as (A' & B' & C' & D' & E').
    split; [eapply extends_trans; eauto|].
    split; [eapply same_config_trans; eauto|].
    split; [lia|]. split; [lia|auto].
Qed.

Lemma expand_word_later (eye viewdir : vec) (init_edges : list edge)
  (w : word) (st st' : export_state) :
  expand_word eye viewdir init_edges st w = Ok st' -> later eye viewdir st st'.
Proof.
  unfold expand_word.
  apply (foldM_invariant (fun s => later eye viewdir st s)
           (expand_edge eye viewdir w));
    [|apply later_refl].
  intros a x a' La X; eapply later_step; [exact La | exact X].
Qed.

Lemma expansion_later (eye viewdir : vec) (init_edges : list edge)
  (ws : list word) (st st' : export_state) :
  foldM (expand_word eye viewdir init_edges) ws st = Ok st' ->
  later eye viewdir st st'.
Proof.
  apply (foldM_invariant (fun s => later eye viewdir st s)
           (expand_word eye viewdir init_edges));
    [|apply later_refl].
  intros a x a' La X. apply expand_word_later in X.
  eapply later_trans; eauto.
Qed.

(** C3.  [add_new_edge], the emission step, writes the edge to the file
    exactly when one of its two projected endpoints [p] has
    [dot(p - eye, viewdir) > 0.5]; what it writes is one HyperbolicEdge
    record at the end of the file, and with both endpoints failing the
    test the file is left as it is.  So it is for every fundamental edge
    of the seed phase, which all go through [add_new_edge], and for
    every edge of the expansion whose midpoint is new. *)
Theorem C3_visibility_cull (eye viewdir : vec) :
  (forall (st : export_state) (e : edge),
      let p1 := project (fst e) in
      let p2 := project (snd e) in
      let visible :=
        fgtb (dot (vsub p1 eye) viewdir) fhalf = true
        \/ fgtb (dot (vsub p2 eye) viewdir) fhalf = true in
      (st_f (add_new_edge eye viewdir st e)
         = st_f st ++ [HyperbolicEdge (pov_vector p1) (pov_vector p2)]
       <-> visible)
      /\ (st_f (add_new_edge eye viewdir st e) = st_f st <-> ~ visible))
  /\ (forall (w : word) (st st' : export_state) (e : edge) (p q : key),
         Honeycomb_transform (st_self st) w (fst e) = Ok p ->
         Honeycomb_transform (st_self st) w (snd e) = Ok q ->
         key_mem (centroid (p, q)) (edge_hash_set (st_self st)) = false ->
         expand_edge eye viewdir w st e = Ok st' ->
         let visible :=
           fgtb (dot (vsub (project p) eye) viewdir) fhalf = true
           \/ fgtb (dot (vsub (project q) eye) viewdir) fhalf = true in
         (st_f st'
            = st_f st ++ [HyperbolicEdge (pov_vector (project p))
                                         (pov_vector (project q))]
          <-> visible)
         /\ (st_f st' = st_f st <-> ~ visible)).
Proof.
  split.
  - intros st e. apply add_new_edge_writes.
  - intros w st st' e p q P Q M X.
    apply expand_edge_inv in X as (p' & q' & P' & Q' & X).
    rewrite P in P'; injection P' as <-. rewrite Q in Q'; injection Q' as <-.
    destruct X as [[M' _]|[_ (h' & _ & ->)]]; [congruence|].
    exact (add_new_edge_writes eye viewdir
             (mkState h' (st_f st) (st_vertices st)) (p, q)).
Qed.

End Expansion.

(** ** The seed phase *)

Lemma fold_left_invariant {A B : Type} (P : A -> Prop) (f : A -> B -> A)
  (l : list B) :
  (forall a x, In x l -> P a -> P (f a x)) ->
  forall a, P a -> P (fold_left f l a).
Proof.
  induction l as [|x l IH]; intros Hstep a Pa; simpl; [exact Pa|].
  apply IH.
  - intros b y Hy; apply Hstep; right; exact Hy.
  - apply Hstep; [left; reflexivity | exact Pa].
Qed.

Lemma foldM_skip {A B : Type} (f : A -> B -> result A) (l : list B) (a : A) :
  (forall x, f a x = Ok a) -> foldM f l a = Ok a.
Proof.
  intros H; induction l as [|x l IH]; simpl; [reflexivity|].
  rewrite H; simpl; exact IH.
Qed.

Section Seed.

Context {F : Type} {FO : FloatOps F} {HP : Helpers F}.

Local Abbreviation vec := (vec F).
Local Abbreviation key := (key F).
Local Abbreviation edge := (edge F).
Local Abbreviation Honeycomb := (Honeycomb F).
Local Abbreviation export_state := (export_state F).


Lemma collected_refl (s : Honeycomb * list edge) : collected s s.
Proof.
  split; [apply extends_refl|]. split; [apply same_config_refl|]. auto.
Qed.

Lemma collected_trans (s1 s2 s3 : Honeycomb * list edge) :
  collected s1 s2 -> collected s2 s3 -> collected s1 s3.
Proof.
  intros (A & B & C & D & E) (A' & B' & C' & D' & E').
  split; [eapply extends_trans; eauto|].
  split; [eapply same_config_trans; eauto|].
  split; [congruence|]. split; [congruence|lia].
Qed.

Lemma collect_step_collected (s : Honeycomb * list edge) (e : edge) :
  collected s (collect_step s e).
Proof.
  destruct s as [h acc]. unfold collect_step; simpl fst; simpl snd.
  destruct (is_new_edge h e) as [h' b] eqn:N. destruct b.
  - apply is_new_edge_true in N as (_ & R & S & NV & NE).
    unfold collected; simpl. rewrite R, !length_app; simpl.
    split; [exists [centroid e]; reflexivity|].
    split; [exact S|]. split; [exact NE|]. split; [exact NV|lia].
  - apply is_new_edge_false in N as (_ & ->). apply collected_refl.
Qed.

Lemma collect_edges_collected (es : list edge) (s : Honeycomb * list edge) :
  collected s (fold_left collect_step es s).
Proof.
  apply (fold_left_invariant (collected s)); [|apply collected_refl].
  intros a x _ Ca. eapply collected_trans; [exact Ca|].
  apply collect_step_collected.
Qed.

Lemma collect_collected (h h1 : Honeycomb) (init_edges : list edge) :
  collect_fundamental_cell_edges h = (h1, init_edges) ->
  extends (edge_hash_set h) (edge_hash_set h1)
  /\ same_config h h1
  /\ num_edges h1 = num_edges h
  /\ num_vertices h1 = num_vertices h
  /\ length (edge_hash_set h1) = length (edge_hash_set h) + length init_edges.
Proof.
  unfold collect_fundamental_cell_edges; intros H.
  assert (C : collected (h, []) (h1, init_edges)).
  { rewrite <- H.
    apply (fold_left_invariant (collected (h, []))); [|apply collected_refl].
    intros a x _ Ca. eapply collected_trans; [exact Ca|].
    apply collect_edges_collected. }
  destruct C as (A & B & C & D & E); simpl in *.
  repeat (split; [assumption|]). lia.
Qed.

(** Emission of the fundamental edges. *)
Lemma seed_emission_self (eye viewdir : vec) (es : list edge)
  (st : export_state) :
  edge_hash_set (st_self (fold_left (add_new_edge eye viewdir) es st))
    = edge_hash_set (st_self st)
  /\ same_config (st_self st)
       (st_self (fold_left (add_new_edge eye viewdir) es st))
  /\ num_edges (st_self st)
     <= num_edges (st_self (fold_left (add_new_edge eye viewdir) es st))
  /\ num_edges (st_self (fold_left (add_new_edge eye viewdir) es st))
     <= num_edges (st_self st) + length es
  /\ num_vertices (st_self st)
     <= num_vertices (st_self (fold_left (add_new_edge eye viewdir) es st)).
Proof.
  revert st; induction es as [|e es IH]; intros st; simpl.
  - split; [reflexivity|]. split; [apply same_config_refl|].
    repeat split; lia.
  - destruct (IH (add_new_edge eye viewdir st e)) as (A & B & C1 & C2 & D).
    destruct (add_new_edge_self eye viewdir st e) as (A' & B' & C' & D').
    rewrite A, A'.
    split; [reflexivity|].
    split; [eapply same_config_trans; eauto|].
    destruct (in_view _ _ _ || in_view _ _ _); (split; [lia|split; lia]).
Qed.

(** C10.  In the expansion the midpoint of a new edge is in the registry
    when the body of the loop ends, whether or not the edge passes the
    camera test; an edge that fails the test is not written and not
    counted, and at every later point of the expansion an edge whose
    midpoint key equals the registered one is neither written nor
    counted.  The nested loops of the expansion only visit states that
    are later in this sense.  From an instance whose edge count is at
    most the size of its registry (a new instance: both are zero), the
    bound holds after each fundamental edge emitted in the seed phase
    and at every later point of the expansion. *)
Theorem C10_registered_before_cull (eye viewdir : vec) :
  (forall (w : word) (st st' : export_state) (e : edge) (p q : key),
      Honeycomb_transform (st_self st) w (fst e) = Ok p ->
      Honeycomb_transform (st_self st) w (snd e) = Ok q ->
      key_mem (centroid (p, q)) (edge_hash_set (st_self st)) = false ->
      expand_edge eye viewdir w st e = Ok st' ->
      In (centroid (p, q)) (edge_hash_set (st_self st'))
      /\ (in_view eye viewdir (project p) = false ->
          in_view eye viewdir (project q) = false ->
          st_f st' = st_f st
          /\ num_edges (st_self st') = num_edges (st_self st))
      /\ (forall (st2 st3 : export_state) (w2 : word) (e2 : edge) (p2 q2 : key),
             later eye viewdir st' st2 ->
             Honeycomb_transform (st_self st2) w2 (fst e2) = Ok p2 ->
             Honeycomb_transform (st_self st2) w2 (snd e2) = Ok q2 ->
             key_eqb (centroid (p2, q2)) (centroid (p, q)) = true ->
             expand_edge eye viewdir w2 st2 e2 = Ok st3 ->
             st3 = st2))
  /\ (forall (init_edges : list edge) (ws : list word) (st st' : export_state),
         foldM (expand_word eye viewdir init_edges) ws st = Ok st' ->
         later eye viewdir st st')
  /\ (forall (h h1 : Honeycomb) (init_edges : list edge)
             (f : list pov_line) (vs : list key),
         count_bounded h ->
         collect_fundamental_cell_edges h = (h1, init_edges) ->
         (forall es1 es2, init_edges = es1 ++ es2 ->
            count_bounded
              (st_self (fold_left (add_new_edge eye viewdir) es1
                          (mkState h1 f vs))))
         /\ (forall st',
                later eye viewdir
                  (fold_left (add_new_edge eye viewdir) init_edges
                     (mkState h1 f vs)) st' ->
                count_bounded (st_self st'))).
Proof.
  split; [|split].
  - intros w st st' e p q P Q M X.
    apply expand_edge_inv in X as (p' & q' & P' & Q' & X).
    rewrite P in P'; injection P' as <-. rewrite Q in Q'; injection Q' as <-.
    destruct X as [[M' _]|[_ (h' & N & ->)]]; [congruence|].
    apply is_new_edge_true in N as (_ & R & S & NV & NE).
    match goal with
    | |- context [add_new_edge ?a ?b ?s ?x] =>
        destruct (add_new_edge_self a b s x) as (A & B & C & D);
        set (sn := add_new_edge a b s x) in *
    end.
    simpl in A, B, C, D.
    assert (Hin : In (centroid (p, q)) (edge_hash_set (st_self sn))).
    { rewrite A, R. apply in_or_app; right; left; reflexivity. }
    split; [exact Hin|]. split.
    + intros V1 V2. subst sn.
      rewrite add_new_edge_culled by assumption. simpl. auto.
    + intros st2 st3 w2 e2 p2 q2 L P2 Q2 E X2.
      apply expand_edge_inv in X2 as (p' & q' & P' & Q' & X2).
      rewrite P2 in P'; injection P' as <-.
      rewrite Q2 in Q'; injection Q' as <-.
      destruct X2 as [[_ ->]|[M2 _]]; [reflexivity|].
      apply later_self in L as (Ext & _).
      assert (Hin2 : In (centroid (p, q)) (edge_hash_set (st_self st2)))
        by (eapply extends_In; eauto).
      erewrite key_mem_In in M2 by eassumption. discriminate.
  - intros init_edges ws st st'. apply expansion_later.
  - intros h h1 init_edges f vs CB Col.
    apply collect_collected in Col as (Ext & S & NE & NV & Len).
    unfold count_bounded in *.
    assert (Seed : forall es1 es2, init_edges = es1 ++ es2 ->
               num_edges (st_self (fold_left (add_new_edge eye viewdir) es1
                                     (mkState h1 f vs)))
               <= length (edge_hash_set
                            (st_self (fold_left (add_new_edge eye viewdir) es1
                                        (mkState h1 f vs))))).
    { intros es1 es2 E.
      destruct (seed_emission_self eye viewdir es1 (mkState h1 f vs))
        as (A & _ & _ & C & _).
      simpl in A, C. rewrite A. subst init_edges.
      rewrite length_app in Len. lia. }
    split; [exact Seed|].
    intros st' L. apply later_self in L as (_ & _ & _ & _ & CB').
    apply CB'. unfold count_bounded.
    apply (Seed init_edges []). rewrite app_nil_r; reflexivity.
Qed.

End Seed.

(** ** A second export on the same instance *)

Section SecondCall.

Context {F : Type} {FO : FloatOps F} {HP : Helpers F} {CG : CoxeterGroup}.

Local Abbreviation vec := (vec F).
Local Abbreviation key := (key F).
Local Abbreviation edge := (edge F).
Local Abbreviation Cell := (Cell F).
Local Abbreviation Honeycomb := (Honeycomb F).
Local Abbreviation export_state := (export_state F).


Lemma registered_extends (cells : list Cell) (s s' : list key) :
  extends s s' -> registered cells s -> registered cells s'.
Proof.
  intros Ext R. unfold registered in *.
  eapply Forall_impl; [|exact R]. intros C HC.
  eapply Forall_impl; [|exact HC]. intros e He.
  eapply extends_key_mem; eauto.
Qed.

Lemma collect_registered_skip (cells : list Cell) (h : Honeycomb) :
  registered cells (edge_hash_set h) ->
  fold_left (fun st C => fold_left collect_step (Cell_edge_coords C) st)
            cells (h, []) = (h, []).
Proof.
  induction 1 as [|C cells HC _ IH]; simpl; [reflexivity|].
  assert (E : fold_left collect_step (Cell_edge_coords C) (h, @nil edge)
              = (h, [])).
  { induction HC as [|e es He _ IHe]; simpl; [reflexivity|].
    unfold collect_step at 2; simpl.
    rewrite (is_new_edge_registered _ _ He). exact IHe. }
  rewrite E. exact IH.
Qed.

(** Equality of floats is taken to be reflexive from here on: no NaN
    among the coordinates. *)
Hypothesis feqb_refl : forall x : F, feqb x x = true.

Lemma key_eqb_refl (k : key) : key_eqb k k = true.
Proof. induction k as [|x k IH]; simpl; [|rewrite feqb_refl]; auto. Qed.

Lemma collect_step_registers (s : Honeycomb * list edge) (e : edge) :
  key_mem (centroid e) (edge_hash_set (fst (collect_step s e))) = true.
Proof.
  unfold collect_step.
  destruct (is_new_edge (fst s) e) as [h' b] eqn:N. destruct b.
  - apply is_new_edge_true in N as (_ & R & _). simpl. rewrite R.
    unfold key_mem. rewrite existsb_app. simpl.
    rewrite key_eqb_refl, orb_true_r. reflexivity.
  - apply is_new_edge_false in N as (M & ->). exact M.
Qed.

Lemma collect_edges_registers (es : list edge) (s : Honeycomb * list edge) :
  Forall (fun e => key_mem (centroid e)
                     (edge_hash_set (fst (fold_left collect_step es s))) = true)
         es.
Proof.
  revert s; induction es as [|e es IH]; intros s; simpl; constructor.
  - destruct (collect_edges_collected es (collect_step s e)) as (Ext & _).
    eapply extends_key_mem; [exact Ext|]. apply collect_step_registers.
  - apply IH.
Qed.

Lemma collect_cells_registers (cells : list Cell) (s : Honeycomb * list edge) :
  registered cells
    (edge_hash_set
       (fst (fold_left
               (fun st C => fold_left collect_step (Cell_edge_coords C) st)
               cells s))).
Proof.
  revert s; induction cells as [|C cells IH]; intros s; simpl; constructor.
  - set (s1 := fold_left collect_step (Cell_edge_coords C) s).
    assert (Ext : collected s1
              (fold_left
                 (fun st C => fold_left collect_step (Cell_edge_coords C) st)
                 cells s1)).
    { apply (fold_left_invariant (collected s1)); [|apply collected_refl].
      intros a x _ Ca. eapply collected_trans; [exact Ca|].
      apply collect_edges_collected. }
    destruct Ext as (Ext & _).
    pose proof (collect_edges_registers (Cell_edge_coords C) s) as Hs.
    fold s1 in Hs. eapply Forall_impl; [|exact Hs].
    intros e He. simpl in He. eapply extends_key_mem; [exact Ext | exact He].
  - apply IH.
Qed.

(** C9.  The constructor creates an empty registry and zero counters.
    An export keeps what the registry held and never lowers a counter.
    After one export on an instance, a second export on it (with any
    bounds and camera) finds the midpoint of every fundamental edge
    registered: [collect_fundamental_cell_edges] returns the empty list
    and leaves the instance as it is, no HyperbolicEdge record is
    written, and the file declares the vertex count left by the first
    export next to an empty vertex array. *)
Theorem C9_second_export_is_empty (h h1 : Honeycomb)
  (depth maxcount : nat) (eye lookat : vec) (f1 : list pov_line)
  (depth' maxcount' : nat) (eye' lookat' : vec) :
  generate_povray_data h depth maxcount eye lookat = Ok (h1, f1) ->
  (forall d dist h0, Honeycomb_init d dist = Ok h0 ->
     edge_hash_set h0 = [] /\ num_vertices h0 = 0 /\ num_edges h0 = 0)
  /\ extends (edge_hash_set h) (edge_hash_set h1)
  /\ num_vertices h <= num_vertices h1
  /\ num_edges h <= num_edges h1
  /\ registered (map snd (fundamental_cells h1)) (edge_hash_set h1)
  /\ collect_fundamental_cell_edges h1 = (h1, [])
  /\ generate_povray_data h1 depth' maxcount' eye' lookat'
     = Ok (h1, [DeclareCameraLoc (pov_vector eye');
                DeclareLookat (pov_vector lookat');
                DeclareNumVertices (num_vertices h1);
                DeclareVertices (num_vertices h1) (pov_vector_list [])]).
Proof.
  intros G.
  split.
  { intros d dist h0 H0. unfold Honeycomb_init in H0.
    destruct (negb (length d =? 6) || negb (length dist =? 4));
      [discriminate|].
    apply bind_Ok in H0 as (cells & _ & H0). injection H0 as <-. auto. }
  unfold generate_povray_data in G.
  destruct (collect_fundamental_cell_edges h) as [ha init_edges] eqn:Col.
  apply bind_Ok in G as (st2 & X & G). injection G as <- <-.
  pose proof (collect_cells_registers (map snd (fundamental_cells h)) (h, []))
    as Reg.
  unfold collect_fundamental_cell_edges in Col. rewrite Col in Reg.
  simpl in Reg.
  assert (Col' : collect_fundamental_cell_edges h = (ha, init_edges))
    by exact Col.
  apply collect_collected in Col' as (Ext & S & NE & NV & _).
  match type of X with
  | foldM _ _ ?s = _ =>
      set (st1 := s) in *
  end.
  destruct (seed_emission_self eye (normalize (vsub lookat eye)) init_edges
              (mkState ha [DeclareCameraLoc (pov_vector eye);
                           DeclareLookat (pov_vector lookat)] []))
    as (A1 & S1 & E1 & _ & V1).
  fold st1 in A1, S1, E1, V1. simpl in A1, S1, E1, V1.
  apply expansion_later in X.
  apply later_self in X as (Ext2 & S2 & E2 & V2 & _).
  assert (ExtAll : extends (edge_hash_set h) (edge_hash_set (st_self st2))).
  { eapply extends_trans; [exact Ext|]. rewrite <- A1. exact Ext2. }
  assert (Cells : fundamental_cells (st_self st2) = fundamental_cells h).
  { destruct S as (_ & _ & Sa), S1 as (_ & _ & Sb), S2 as (_ & _ & Sc).
    congruence. }
  assert (RegAll : registered (map snd (fundamental_cells (st_self st2)))
                     (edge_hash_set (st_self st2))).
  { rewrite Cells. eapply registered_extends; [|exact Reg].
    rewrite <- A1. exact Ext2. }
  assert (Col2 : collect_fundamental_cell_edges (st_self st2)
                 = (st_self st2, [])).
  { unfold collect_fundamental_cell_edges.
    apply collect_registered_skip. exact RegAll. }
  split; [exact ExtAll|]. split; [lia|]. split; [lia|].
  split; [exact RegAll|]. split; [exact Col2|].
  unfold generate_povray_data. rewrite Col2. simpl fold_left.
  rewrite foldM_skip; [reflexivity|].
  intros w; reflexivity.
Qed.

End SecondCall.

(** ** Reflections in exact arithmetic *)

Section ExactArithmetic.

Context {F : Type} {FO : FloatOps F}.

Local Abbreviation vec := (vec F).

(** The scalars form a commutative ring under the operations of the
    program: arithmetic without rounding error. *)
Variables (f1 : F) (fopp : F -> F).

Hypothesis Fring : ring_theory f0 f1 fadd fmul fsub fopp eq.
Hypothesis f2_two : f2 = fadd f1 f1.

Add Ring Fring_ring : Fring.








End ExactArithmetic.

(** * The properties on the instances *)

Section Instances.

Import QArith.
Import Rational.

Local Open Scope Q_scope.

(** C1 on the instance: of the four triples, only (0,1,2) has its three
    mirrors active at [dist0], and it is the one key of the dict. *)
Lemma C1_fundamental_cells_witness :
  exists h,
    Honeycomb_init diagram0 dist0 = Ok h
    /\ map fst (fundamental_cells h)
       = filter (admissible (cox_mat h) (reflections h) (active h))
                (combinations (gens h) 3)
    /\ map fst (fundamental_cells h) = [[0; 1; 2]%nat].
Proof.
  assert (K : match Honeycomb_init diagram0 dist0 with
              | Ok h => map fst (fundamental_cells h)
              | Raise _ => []
              end = [[0; 1; 2]%nat]) by (vm_compute; reflexivity).
  destruct (Honeycomb_init diagram0 dist0) as [h|e] eqn:E; [|discriminate K].
  exists h. split; [reflexivity|].
  destruct (C1_fundamental_cells _ _ E) as (_ & _ & Keys & _).
  split; [exact Keys | exact K].
Defined.

(** C2, as stated: in the cell of the generators 0, 1, 2 at the point
    (1 + 2^-30, 1, 1, 0), the first edge comes from the empty word and
    the generator 0.  Its unrounded endpoints are the point and its
    mirror image; the stored edge is the rounded pair ((1,1,1,0),
    (-1,1,1,0)), and the unrounded pair is not stored at all.  (The
    first candidate is stored whatever its midpoint is: [edgehash] is
    empty then.) *)
Lemma C2_unrounded_pair_refuted :
  exists C,
    Cell_build_geometry cell0 = Ok C
    /\ apply_word reflections0 [] dist0
       = Ok [1073741825 # 1073741824; 1; 1; 0]
    /\ apply_word reflections0 [0%nat] dist0
       = Ok [(-1073741825) # 1073741824; 1; 1; 0]
    /\ nth_error (Cell_edge_coords C) 0 = Some ([1; 1; 1; 0], [-1; 1; 1; 0])
    /\ ~ In ([1073741825 # 1073741824; 1; 1; 0],
             [(-1073741825) # 1073741824; 1; 1; 0])
            (Cell_edge_coords C).
Proof.
  assert (K : exists l,
             match Cell_build_geometry cell0 with
             | Ok C => Some (Cell_edge_coords C)
             | Raise _ => None
             end = Some l
             /\ nth_error l 0 = Some ([1; 1; 1; 0], [-1; 1; 1; 0])
             /\ ~ In ([1073741825 # 1073741824; 1; 1; 0],
                      [(-1073741825) # 1073741824; 1; 1; 0]) l).
  { eexists. split; [vm_compute; reflexivity|].
    split; [reflexivity|]. simpl. intuition discriminate. }
  destruct K as (l & K & First & Notin).
  destruct (Cell_build_geometry cell0) as [C|e] eqn:E; [|discriminate K].
  injection K as <-. exists C.
  split; [reflexivity|].
  split; [vm_compute; reflexivity|].
  split; [vm_compute; reflexivity|].
  split; [exact First | exact Notin].
Qed.

(** C2 (amended) on the same cell. *)
Lemma C2_stored_edges_are_rounded_witness :
  exists C,
    Cell_build_geometry cell0 = Ok C
    /\ Forall (fun e =>
                 exists w i u1 u2,
                   In w (traverse cox_mat0 None None)
                   /\ nth_error [true; true; true] i = Some true
                   /\ apply_word reflections0 w dist0 = Ok u1
                   /\ apply_word reflections0 (w ++ [i]) dist0 = Ok u2
                   /\ e = (vround u1, vround u2))
              (Cell_edge_coords C).
Proof.
  assert (K : is_ok (Cell_build_geometry cell0) = true)
    by (vm_compute; reflexivity).
  destruct (is_ok_Ok _ K) as [C E]. exists C.
  split; [exact E|].
  exact (@C2_stored_edges_are_rounded Q Q_FloatOps Q_Helpers sign_changes
           cox_mat0 dist0 [true; true; true] reflections0 C E).
Defined.

Lemma Q_feqb_refl : forall x : Q, feqb x x = true.
Proof. intros x; simpl. apply Qeq_bool_iff. reflexivity. Qed.

(** C9 on the instance: a first export with depth 4, which emits 8 of
    the 12 edges of the cube, then a second one with depth 2. *)
Lemma C9_second_export_is_empty_witness :
  exists h h1 f1,
    Honeycomb_init diagram0 dist0 = Ok h
    /\ generate_povray_data h 4 100 eye0 lookat0 = Ok (h1, f1)
    /\ num_edges h1 = 8%nat
    /\ collect_fundamental_cell_edges h1 = (h1, [])
    /\ generate_povray_data h1 2 100 eye0 lookat0
       = Ok (h1, [DeclareCameraLoc (pov_vector eye0);
                  DeclareLookat (pov_vector lookat0);
                  DeclareNumVertices (num_vertices h1);
                  DeclareVertices (num_vertices h1) (pov_vector_list [])]).
Proof.
  assert (K : match Honeycomb_init diagram0 dist0 with
              | Ok h =>
                  match generate_povray_data h 4 100 eye0 lookat0 with
                  | Ok (h1, _) => Some (num_edges h1)
                  | Raise _ => None
                  end
              | Raise _ => None
              end = Some 8%nat) by (vm_compute; reflexivity).
  destruct (Honeycomb_init diagram0 dist0) as [h|e] eqn:E; [|discriminate K].
  destruct (generate_povray_data h 4 100 eye0 lookat0) as [[h1 f1]|e] eqn:G;
    [|discriminate K].
  injection K as K. exists h, h1, f1.
  split; [reflexivity|]. split; [exact G|]. split; [exact K|].
  destruct (@C9_second_export_is_empty Q Q_FloatOps Q_Helpers sign_changes
              Q_feqb_refl h h1 4%nat 100%nat eye0 lookat0 f1
              2%nat 100%nat eye0 lookat0 G)
    as (_ & _ & _ & _ & _ & Col & G2).
  split; [exact Col | exact G2].
Defined.

(** C10 on the instance: on the new instance the edge from (1,1,1,0)
    to (-1,1,1,0) is new and out of view (both endpoints have z = 1,
    the camera looks down from z = 1/2). *)
Lemma C10_registered_before_cull_witness :
  exists h st',
    Honeycomb_init diagram0 dist0 = Ok h
    /\ Honeycomb_transform h [] [1; 1; 1; 0] = Ok [1; 1; 1; 0]
    /\ Honeycomb_transform h [] [-1; 1; 1; 0] = Ok [-1; 1; 1; 0]
    /\ key_mem (centroid ([1; 1; 1; 0], [-1; 1; 1; 0])) (edge_hash_set h)
       = false
    /\ in_view eye0 (normalize (vsub lookat0 eye0))
         (project [1; 1; 1; 0]) = false
    /\ in_view eye0 (normalize (vsub lookat0 eye0))
         (project [-1; 1; 1; 0]) = false
    /\ expand_edge eye0 (normalize (vsub lookat0 eye0)) []
         (mkState h [] []) ([1; 1; 1; 0], [-1; 1; 1; 0]) = Ok st'
    /\ In (centroid ([1; 1; 1; 0], [-1; 1; 1; 0]))
          (edge_hash_set (st_self st'))
    /\ st_f st' = []
    /\ num_edges (st_self st') = num_edges h.
Proof.
  assert (K : match Honeycomb_init diagram0 dist0 with
              | Ok h =>
                  (negb (key_mem (centroid ([1; 1; 1; 0], [-1; 1; 1; 0]))
                           (edge_hash_set h))
                   && is_ok (expand_edge eye0 (normalize (vsub lookat0 eye0)) []
                               (mkState h [] [])
                               ([1; 1; 1; 0], [-1; 1; 1; 0])))%bool
              | Raise _ => false
              end = true) by (vm_compute; reflexivity).
  destruct (Honeycomb_init diagram0 dist0) as [h|e] eqn:E; [|discriminate K].
  apply andb_true_iff in K as (M & X).
  apply negb_true_iff in M. apply is_ok_Ok in X as (st' & X).
  exists h, st'.
  assert (P : Honeycomb_transform h [] [1; 1; 1; 0] = Ok [1; 1; 1; 0])
    by (vm_compute; reflexivity).
  assert (Q' : Honeycomb_transform h [] [-1; 1; 1; 0] = Ok [-1; 1; 1; 0])
    by (vm_compute; reflexivity).
  assert (V1 : in_view eye0 (normalize (vsub lookat0 eye0))
                 (project [1; 1; 1; 0]) = false)
    by (vm_compute; reflexivity).
  assert (V2 : in_view eye0 (normalize (vsub lookat0 eye0))
                 (project [-1; 1; 1; 0]) = false)
    by (vm_compute; reflexivity).
  destruct (@C10_registered_before_cull Q Q_FloatOps Q_Helpers
              eye0 (normalize (vsub lookat0 eye0)))
    as (Part1 & _ & _).
  destruct (Part1 [] (mkState h [] []) st' ([1; 1; 1; 0], [-1; 1; 1; 0])
              [1; 1; 1; 0] [-1; 1; 1; 0] P Q' M X)
    as (Hin & Cull & _).
  destruct (Cull V1 V2) as (Ef & En).
  repeat (split; [first [reflexivity | assumption]|]).
  exact En.
Defined.

End Instances.

Section ExactInstance.

Import QArith Qcanon.
Import Exact.


End ExactInstance.

Section Binary64Instance.

Import PrimFloat.
Import Binary64.

Local Open Scope float_scope.


End Binary64Instance.

(** * Further properties of the program *)

Arguments centroid {F FO HP} points.
Arguments edge_record {F HP} e.
Arguments rounded_edge {F FO} e.
Arguments is_edge_line {F HP} l.

(** ** Words and reflections *)

Lemma forallb_rev {A : Type} (f : A -> bool) (l : list A) :
  forallb f (rev l) = forallb f l.
Proof.
  induction l as [|x l IH]; simpl; [reflexivity|].
  rewrite forallb_app, IH; simpl. rewrite andb_true_r, andb_comm. reflexivity.
Qed.

Section Words.

Context {F : Type} {FO : FloatOps F}.

Local Abbreviation vec := (vec F).

Lemma apply_word_app (refl : list (vec -> vec)) (w1 w2 : word) (v : vec) :
  apply_word refl (w1 ++ w2) v
  = (v' <- apply_word refl w2 v ;; apply_word refl w1 v').
Proof. unfold apply_word. rewrite rev_app_distr, foldM_app. reflexivity. Qed.

Lemma apply_word_is_ok (refl : list (vec -> vec)) (w : word) (v : vec) :
  is_ok (apply_word refl w v) = word_in_range refl w.
Proof.
  unfold apply_word, word_in_range. rewrite <- (forallb_rev _ w).
  generalize (rev w) as l. intros l; revert v.
  induction l as [|g l IH]; intros v; simpl; [reflexivity|].
  unfold subscript. destruct (nth_error refl g) as [r|] eqn:N; simpl.
  - assert (L : g < length refl) by (apply nth_error_Some; congruence).
    apply Nat.ltb_lt in L. rewrite L. simpl. apply IH.
  - apply nth_error_None in N. apply Nat.ltb_ge in N. rewrite N. reflexivity.
Qed.

Lemma transform_is_ok (refl : list (vec -> vec)) (w : word) (v : vec) :
  is_ok (transform refl w v) = word_in_range refl w.
Proof.
  unfold transform. rewrite <- (apply_word_is_ok refl w v).
  destruct (apply_word refl w v); reflexivity.
Qed.

(** X1.  A word acts by composition from right to left: transforming by
    [w1 ++ w2] applies [w2] first and then transforms by [w1], with one
    rounding at the end; the empty word only rounds; and the extended
    word [w ++ (g,)] of [get_edges] transforms the mirror image of the
    point under the reflection [g]. *)
Theorem X1_transform_composes (refl : list (vec -> vec)) (v : vec) :
  transform refl [] v = Ok (vround v)
  /\ (forall w1 w2,
         transform refl (w1 ++ w2) v
         = (v' <- apply_word refl w2 v ;; transform refl w1 v'))
  /\ (forall w g r,
         nth_error refl g = Some r ->
         transform refl (w ++ [g]) v = transform refl w (r v)).
Proof.
  split; [reflexivity|]. split.
  - intros w1 w2. unfold transform. rewrite apply_word_app.
    destruct (apply_word refl w2 v); reflexivity.
  - intros w g r N. unfold transform. rewrite apply_word_app.
    assert (E : apply_word refl [g] v = Ok (r v)).
    { unfold apply_word, subscript; simpl. rewrite N. reflexivity. }
    rewrite E. reflexivity.
Qed.

(** X2.  [transform] returns a point only if every letter of the word
    is the index of a reflection; and when the last letter of the word,
    the first the loop over [reversed(word)] looks up, is not one, the
    subscript raises [IndexError] before any reflection is applied. *)
Theorem X2_transform_needs_valid_letters (refl : list (vec -> vec)) (v : vec) :
  (forall w k, transform refl w v = Ok k ->
               Forall (fun g => g < length refl) w)
  /\ (forall w g, length refl <= g ->
                  transform refl (w ++ [g]) v = Raise IndexError).
Proof.
  split.
  - intros w k E.
    pose proof (transform_is_ok refl w v) as K. rewrite E in K. simpl in K.
    symmetry in K. unfold word_in_range in K. rewrite forallb_forall in K.
    apply Forall_forall. intros g Hg. apply Nat.ltb_lt; auto.
  - intros w g L. unfold transform. rewrite apply_word_app.
    assert (E : apply_word refl [g] v = Raise IndexError).
    { unfold apply_word, subscript; simpl.
      apply nth_error_None in L. rewrite L. reflexivity. }
    rewrite E. reflexivity.
Qed.

End Words.

(** ** Loops that end without an exception *)

Lemma foldM_each_ok {A B : Type} (f : A -> B -> result A) (l : list B) :
  forall a a', foldM f l a = Ok a' ->
    Forall (fun x => exists a1 a2, f a1 x = Ok a2) l.
Proof.
  induction l as [|x l IH]; intros a a' H; simpl in H; constructor.
  - apply bind_Ok in H as (a1 & H1 & _). eauto.
  - apply bind_Ok in H as (a1 & _ & H2). eauto.
Qed.

Lemma foldM_total {A B : Type} (f : A -> B -> result A) (l : list B) :
  (forall a x, In x l -> exists a', f a x = Ok a') ->
  forall a, exists a', foldM f l a = Ok a'.
Proof.
  induction l as [|x l IH]; intros H a; simpl; [eauto|].
  destruct (H a x (or_introl eq_refl)) as [a1 E]. rewrite E; simpl.
  apply IH. intros b y Hy; apply H; right; exact Hy.
Qed.

Lemma nth_error_In_combine_seq {A : Type} (l : list A) (s i : nat) (x : A) :
  nth_error l i = Some x -> In (s + i, x) (combine (seq s (length l)) l).
Proof.
  revert s i; induction l as [|y l IH]; intros s i H.
  - destruct i; discriminate.
  - destruct i as [|i]; simpl in *.
    + injection H as <-. left. rewrite Nat.add_0_r. reflexivity.
    + right. replace (s + S i) with (S s + i) by lia. apply IH; exact H.
Qed.

Lemma In_enumerate_iff {A : Type} (l : list A) (i : nat) (x : A) :
  In (i, x) (enumerate l) <-> nth_error l i = Some x.
Proof.
  split; [apply In_enumerate|].
  intros H. apply (nth_error_In_combine_seq l 0) in H. exact H.
Qed.

(** ** The geometry of a cell *)

Section CellGeometry.

Context {F : Type} {FO : FloatOps F} {HP : Helpers F} {CG : CoxeterGroup}.

Local Abbreviation vec := (vec F).
Local Abbreviation key := (key F).
Local Abbreviation edge := (edge F).
Local Abbreviation Cell := (Cell F).

Lemma distinct_keys_nil : distinct_keys (@nil key).
Proof. intros l1 k l2 E. destruct l1; discriminate. Qed.

Lemma distinct_keys_snoc (l : list key) (k : key) :
  distinct_keys l -> key_mem k l = false -> distinct_keys (l ++ [k]).
Proof.
  intros D M l1 k' l2 E.
  destruct l2 as [|y l2].
  - apply app_inj_tail in E as [<- <-]. exact M.
  - destruct (@exists_last _ (y :: l2)) as (l2' & a & E2); [discriminate|].
    rewrite E2 in E.
    change (l ++ [k] = l1 ++ (k' :: l2') ++ [a]) in E.
    rewrite app_assoc in E. apply app_inj_tail in E as [E _].
    exact (D _ _ _ E).
Qed.

(** *** [get_vertices] *)

Lemma get_vertices_step_inv (c : Cell) (acc acc' : list key) (w : word) :
  get_vertices_step c acc w = Ok acc' ->
  exists v,
    transform (Cell_reflections c) w (Cell_v0 c) = Ok v
    /\ ((key_mem v acc = false /\ acc' = acc ++ [v])
        \/ (key_mem v acc = true /\ acc' = acc)).
Proof.
  unfold get_vertices_step, Cell_transform. intros H.
  apply bind_Ok in H as (v & T & H). exists v. split; [exact T|].
  destruct (key_mem v acc); simpl in H; injection H as <-; auto.
Qed.

Lemma get_vertices_loop (c : Cell) (l : list word) :
  forall acc acc',
    foldM (get_vertices_step c) l acc = Ok acc' ->
    extends acc acc'
    /\ length acc' <= length acc + length l
    /\ (distinct_keys acc -> distinct_keys acc')
    /\ (forall v, In v acc' ->
          In v acc
          \/ exists w, In w l
                       /\ transform (Cell_reflections c) w (Cell_v0 c) = Ok v)
    /\ (l <> [] -> acc' <> []).
Proof.
  induction l as [|w l IH]; intros acc acc' H; simpl in H.
  - injection H as <-.
    split; [apply extends_refl|]. split; [lia|]. split; [auto|].
    split; [auto|]. intros N; contradiction.
  - apply bind_Ok in H as (acc1 & S & H).
    apply IH in H as (Ext & Len & Dis & Src & _).
    apply get_vertices_step_inv in S as (v & T & [[M ->]|[M ->]]).
    + split; [eapply extends_trans; [exists [v]; reflexivity | exact Ext]|].
      split; [rewrite length_app in Len; simpl in *; lia|].
      split; [intros D; apply Dis, distinct_keys_snoc; auto|].
      split.
      * intros x Hx. apply Src in Hx as [Hx|(w' & Hw' & Tx)].
        -- apply in_app_or in Hx as [Hx|[<-|[]]]; [left; exact Hx|].
           right. exists w. split; [left; reflexivity | exact T].
        -- right. exists w'. split; [right; exact Hw' | exact Tx].
      * intros _ E. destruct Ext as [t Et]. rewrite E in Et.
        destruct acc; discriminate.
    + split; [exact Ext|]. split; [simpl; lia|]. split; [exact Dis|].
      split.
      * intros x Hx. apply Src in Hx as [Hx|(w' & Hw' & Tx)]; [left; exact Hx|].
        right. exists w'. split; [right; exact Hw' | exact Tx].
      * intros _ E. destruct Ext as [t Et]. rewrite E in Et.
        destruct acc; [discriminate M | discriminate Et].
Qed.

(** *** [get_edges] *)

Lemma get_edges_step_inv (c : Cell) (i : nat) (st st' : list edge * list key)
  (w : word) :
  get_edges_step c i st w = Ok st' ->
  exists p1 p2,
    transform (Cell_reflections c) w (Cell_v0 c) = Ok p1
    /\ transform (Cell_reflections c) (w ++ [i]) (Cell_v0 c) = Ok p2
    /\ ((key_mem (centroid (p1, p2)) (snd st) = false
         /\ st' = (fst st ++ [(p1, p2)], snd st ++ [centroid (p1, p2)]))
        \/ (key_mem (centroid (p1, p2)) (snd st) = true /\ st' = st)).
Proof.
  unfold get_edges_step, Cell_transform, set_add. intros H.
  apply bind_Ok in H as (p1 & T1 & H). apply bind_Ok in H as (p2 & T2 & H).
  exists p1, p2. split; [exact T1|]. split; [exact T2|].
  destruct (key_mem (centroid (p1, p2)) (snd st)); simpl in H;
    injection H as <-; auto.
Qed.

Lemma get_edges_words_loop (c : Cell) (i : nat) (l : list word) :
  forall st st',
    foldM (get_edges_step c i) l st = Ok st' ->
    (edges_hashed st -> edges_hashed st')
    /\ (exists t, fst st' = fst st ++ t)
    /\ length (fst st') <= length (fst st) + length l
    /\ (l <> [] -> snd st = [] -> fst st' <> []).
Proof.
  induction l as [|w l IH]; intros st st' H; simpl in H.
  - injection H as <-. split; [auto|]. split; [exists []; rewrite app_nil_r; reflexivity|].
    split; [lia|]. intros N; contradiction.
  - apply bind_Ok in H as (st1 & S & H).
    apply IH in H as (Inv & [t Pre] & Len & _).
    apply get_edges_step_inv in S as (p1 & p2 & _ & _ & [[M ->]|[M ->]]).
    + simpl in *.
      split.
      { intros [E D]. apply Inv. split; simpl.
        - rewrite map_app, E. reflexivity.
        - apply distinct_keys_snoc; auto. }
      split; [exists ((p1, p2) :: t); rewrite Pre, <- app_assoc; reflexivity|].
      split; [rewrite length_app in Len; simpl in Len; lia|].
      intros _ _ E. rewrite E in Pre. destruct (fst st); discriminate.
    + split; [exact Inv|]. split; [exists t; exact Pre|].
      split; [simpl; lia|].
      intros _ E. rewrite E in M. discriminate.
Qed.

Lemma get_edges_gens_loop (c : Cell) (l : list (nat * bool)) :
  forall st st',
    foldM (get_edges_gen c) l st = Ok st' ->
    (edges_hashed st -> edges_hashed st')
    /\ (exists t, fst st' = fst st ++ t)
    /\ length (fst st')
       <= length (fst st)
          + length (filter (fun ia => snd ia) l) * length (Cell_words c)
    /\ (edges_hashed st -> Cell_words c <> [] ->
        existsb (fun ia => snd ia) l = true -> fst st' <> []).
Proof.
  induction l as [|[i b] l IH]; intros st st' H; simpl in H.
  - injection H as <-. split; [auto|]. split; [exists []; rewrite app_nil_r; reflexivity|].
    split; [simpl; lia|]. intros _ _ E; discriminate.
  - apply bind_Ok in H as (st1 & G & H).
    apply IH in H as (Inv & [t Pre] & Len & Ne).
    unfold get_edges_gen in G; simpl in G. destruct b; simpl.
    + apply get_edges_words_loop in G as (Inv1 & [t1 Pre1] & Len1 & Ne1).
      split; [auto|].
      split; [exists (t1 ++ t); rewrite Pre, Pre1, app_assoc; reflexivity|].
      split; [lia|].
      intros E W _ Z.
      assert (N1 : fst st1 <> []).
      { destruct (fst st) as [|e es] eqn:Es.
        - apply Ne1; [exact W|]. destruct E as [E _].
          rewrite E, Es. reflexivity.
        - rewrite Pre1. discriminate. }
      rewrite Z in Pre. destruct (fst st1); [contradiction | discriminate].
    + injection G as <-. split; [exact Inv|]. split; [exists t; exact Pre|].
      split; [exact Len|]. exact Ne.
Qed.

Lemma map_snd_enumerate {A : Type} (l : list A) : map snd (enumerate l) = l.
Proof.
  unfold enumerate. generalize 0.
  induction l as [|x l IH]; intros s; simpl; [reflexivity|].
  rewrite IH; reflexivity.
Qed.

(** The parts of a successful [build_geometry] on a new cell. *)
Lemma build_geometry_inv (cox_mat : matrix) (v0 : vec) (active : list bool)
  (reflections : list (vec -> vec)) (C : Cell) :
  Cell_build_geometry (Cell_init cox_mat v0 active reflections) = Ok C ->
  exists c1 c2 vs st,
    Cell_reflections c1 = reflections /\ Cell_v0 c1 = v0
    /\ Cell_reflections c2 = reflections /\ Cell_v0 c2 = v0
    /\ Cell_words c2 = traverse cox_mat None None
    /\ foldM (get_vertices_step c1) (traverse cox_mat None None) [] = Ok vs
    /\ foldM (get_edges_gen c2) (enumerate active) ([], []) = Ok st
    /\ C = mkCell cox_mat v0 active reflections (traverse cox_mat None None)
             vs (Some (length vs)) (fst st) (Some (length (fst st))).
Proof.
  intros H. unfold Cell_build_geometry in H.
  apply bind_Ok in H as (c2 & V & E).
  unfold Cell_get_vertices in V. apply bind_Ok in V as (vs & V & V').
  injection V' as <-.
  unfold Cell_get_edges in E. apply bind_Ok in E as (st & E & E').
  injection E' as <-. simpl in *.
  eexists _, _, vs, st.
  split; [|split; [|split; [|split; [|split; [|split; [exact V|split; [exact E|]]]]]]];
    reflexivity.
Qed.

End CellGeometry.

Section CellProperties.

Context {F : Type} {FO : FloatOps F} {HP : Helpers F} {CG : CoxeterGroup}.

Local Abbreviation vec := (vec F).
Local Abbreviation key := (key F).
Local Abbreviation edge := (edge F).
Local Abbreviation Cell := (Cell F).

(** X3.  After [build_geometry] on a new cell, [num_vertices] is the
    length of the vertex list, which is at most the number of words of
    the traversal; no vertex of the list is equal to an earlier one;
    every vertex is the point [transform] returns for a word of the
    traversal; and the list is empty exactly when the traversal yields
    no word. *)
Theorem X3_vertex_list (cox_mat : matrix) (v0 : vec) (active : list bool)
  (reflections : list (vec -> vec)) (C : Cell) :
  Cell_build_geometry (Cell_init cox_mat v0 active reflections) = Ok C ->
  Cell_words C = traverse cox_mat None None
  /\ Cell_num_vertices C = Some (length (Cell_vertices_coords C))
  /\ length (Cell_vertices_coords C) <= length (traverse cox_mat None None)
  /\ distinct_keys (Cell_vertices_coords C)
  /\ Forall (fun v => exists w, In w (traverse cox_mat None None)
                                /\ transform reflections w v0 = Ok v)
            (Cell_vertices_coords C)
  /\ (Cell_vertices_coords C = [] <-> traverse cox_mat None None = []).
Proof.
  intros H.
  apply build_geometry_inv in H
    as (c1 & c2 & vs & st & R1 & V1 & _ & _ & _ & V & _ & ->).
  simpl. pose proof (get_vertices_loop c1 _ _ V) as (_ & Len & Dis & Src & Ne).
  rewrite R1, V1 in Src.
  split; [reflexivity|]. split; [reflexivity|]. split; [simpl in Len; lia|].
  split; [apply Dis, distinct_keys_nil|]. split.
  - apply Forall_forall. intros v Hv. apply Src in Hv as [[]|Hv]. exact Hv.
  - split.
    + intros E. destruct (traverse cox_mat None None) as [|w ws]; [reflexivity|].
      exfalso. apply Ne; [discriminate | exact E].
    + intros E. rewrite E in V. simpl in V. injection V as <-. reflexivity.
Qed.

Lemma filter_snd_map {A : Type} (l : list (A * bool)) :
  map snd (filter (fun ia => snd ia) l) = filter (fun b => b) (map snd l).
Proof.
  induction l as [|[i b] l IH]; simpl; [reflexivity|].
  destruct b; simpl; rewrite IH; reflexivity.
Qed.

Lemma existsb_snd_map {A : Type} (l : list (A * bool)) :
  existsb (fun ia => snd ia) l = existsb (fun b => b) (map snd l).
Proof.
  induction l as [|[i b] l IH]; simpl; [reflexivity|].
  rewrite IH; reflexivity.
Qed.

Lemma get_edges_gens_skip (c : Cell) (l : list (nat * bool))
  (st : list edge * list key) :
  Cell_words c = [] \/ existsb (fun ia => snd ia) l = false ->
  foldM (get_edges_gen c) l st = Ok st.
Proof.
  intros H. induction l as [|[i b] l IH]; simpl; [reflexivity|].
  assert (G : get_edges_gen c st (i, b) = Ok st).
  { unfold get_edges_gen; simpl. destruct b; [|reflexivity].
    destruct H as [H|H]; [rewrite H; reflexivity | discriminate H]. }
  rewrite G; simpl. apply IH.
  destruct H as [H|H]; [left; exact H|].
  right. simpl in H. apply orb_false_iff in H as [_ H]. exact H.
Qed.

(** X5.  After [build_geometry] on a new cell, [num_edges] is the
    length of the edge list; no two stored edges have equal midpoint
    keys; there are at most as many edges as active generators times
    words; and the list is empty exactly when the traversal yields no
    word or no generator is active. *)
Theorem X5_edge_list (cox_mat : matrix) (v0 : vec) (active : list bool)
  (reflections : list (vec -> vec)) (C : Cell) :
  Cell_build_geometry (Cell_init cox_mat v0 active reflections) = Ok C ->
  Cell_num_edges C = Some (length (Cell_edge_coords C))
  /\ distinct_keys (map (fun e => centroid e) (Cell_edge_coords C))
  /\ length (Cell_edge_coords C)
     <= length (filter (fun b => b) active)
        * length (traverse cox_mat None None)
  /\ (Cell_edge_coords C = []
      <-> traverse cox_mat None None = []
          \/ existsb (fun b => b) active = false).
Proof.
  intros H.
  apply build_geometry_inv in H
    as (c1 & c2 & vs & st & _ & _ & _ & _ & W2 & _ & E & ->).
  simpl.
  pose proof (get_edges_gens_loop c2 _ _ E) as (Inv & _ & Len & Ne).
  assert (I0 : edges_hashed (@nil edge, @nil key)).
  { split; [reflexivity | apply distinct_keys_nil]. }
  destruct (Inv I0) as (Eh & Dh).
  rewrite W2 in Len, Ne. simpl in Len.
  rewrite <- (length_map snd), filter_snd_map, map_snd_enumerate in Len.
  rewrite existsb_snd_map, map_snd_enumerate in Ne.
  split; [reflexivity|].
  split; [rewrite Eh in Dh; exact Dh|].
  split; [exact Len|]. split.
  - intros Z.
    destruct (traverse cox_mat None None) as [|w ws] eqn:W; [left; reflexivity|].
    right. destruct (existsb (fun b => b) active) eqn:A; [|reflexivity].
    exfalso. apply (Ne I0); [discriminate | reflexivity | exact Z].
  - intros Z. rewrite get_edges_gens_skip in E.
    + injection E as <-. reflexivity.
    + rewrite W2, existsb_snd_map, map_snd_enumerate. exact Z.
Qed.

(** *** When [build_geometry] returns *)

Lemma word_in_range_snoc (refl : list (vec -> vec)) (w : word) (g : nat) :
  word_in_range refl (w ++ [g]) = word_in_range refl w && (g <? length refl).
Proof.
  unfold word_in_range. rewrite forallb_app. simpl.
  rewrite andb_true_r. reflexivity.
Qed.

Lemma get_vertices_step_total (c : Cell) (acc : list key) (w : word) :
  word_in_range (Cell_reflections c) w = true ->
  exists acc', get_vertices_step c acc w = Ok acc'.
Proof.
  intros R. unfold get_vertices_step, Cell_transform.
  rewrite <- (transform_is_ok _ w (Cell_v0 c)) in R.
  apply is_ok_Ok in R as (v & ->). simpl.
  destruct (negb (key_mem v acc)); eauto.
Qed.

Lemma get_edges_step_total (c : Cell) (i : nat) (st : list edge * list key)
  (w : word) :
  word_in_range (Cell_reflections c) w = true ->
  i < length (Cell_reflections c) ->
  exists st', get_edges_step c i st w = Ok st'.
Proof.
  intros R L. unfold get_edges_step, Cell_transform.
  assert (R2 : word_in_range (Cell_reflections c) (w ++ [i]) = true).
  { rewrite word_in_range_snoc, R. apply Nat.ltb_lt in L. rewrite L.
    reflexivity. }
  rewrite <- (transform_is_ok _ w (Cell_v0 c)) in R.
  rewrite <- (transform_is_ok _ (w ++ [i]) (Cell_v0 c)) in R2.
  apply is_ok_Ok in R as (p1 & ->). apply is_ok_Ok in R2 as (p2 & ->). simpl.
  destruct (negb (key_mem (centroid (p1, p2)) (snd st))); eauto.
Qed.

Lemma build_geometry_total (cox_mat : matrix) (v0 : vec)
  (active : list bool) (reflections : list (vec -> vec)) :
  Forall (fun w => word_in_range reflections w = true)
         (traverse cox_mat None None) ->
  (traverse cox_mat None None <> [] ->
   forall i, nth_error active i = Some true -> i < length reflections) ->
  exists C, Cell_build_geometry (Cell_init cox_mat v0 active reflections)
            = Ok C.
Proof.
  intros Rg Act.
  unfold Cell_build_geometry, Cell_get_vertices, Cell_get_edges. simpl.
  match goal with
  | |- exists C, bind (bind (foldM ?f ?l ?a0) _) _ = _ =>
      assert (V : exists vs, foldM f l a0 = Ok vs)
  end.
  { apply foldM_total.
    intros acc w Hw. apply get_vertices_step_total. simpl.
    rewrite Forall_forall in Rg. auto. }
  destruct V as [vs V]. rewrite V; simpl.
  match goal with
  | |- exists C, bind (foldM ?f ?l ?a0) _ = _ =>
      assert (E : exists st, foldM f l a0 = Ok st)
  end.
  { apply foldM_total.
    intros s [i b] Hi. unfold get_edges_gen; simpl.
    destruct b; [|eauto].
    apply foldM_total. intros s' w Hw.
    apply get_edges_step_total; simpl.
    - rewrite Forall_forall in Rg. auto.
    - apply In_enumerate_iff in Hi. apply Act; [|exact Hi].
      intros Z. rewrite Z in Hw. contradiction. }
  destruct E as [st E]. rewrite E; simpl. eauto.
Qed.

(** X6.  [build_geometry] on a new cell returns only if every letter
    of every word of the traversal is the index of one of the cell's
    reflections and, unless the traversal is empty, so is the position
    of every active flag. *)
Theorem X6_build_geometry_needs_valid_indices (cox_mat : matrix) (v0 : vec)
  (active : list bool) (reflections : list (vec -> vec)) (C : Cell) :
  Cell_build_geometry (Cell_init cox_mat v0 active reflections) = Ok C ->
  Forall (Forall (fun g => g < length reflections))
         (traverse cox_mat None None)
  /\ (traverse cox_mat None None <> [] ->
      forall i, nth_error active i = Some true -> i < length reflections).
Proof.
  intros H.
  apply build_geometry_inv in H
    as (c1 & c2 & vs & st & R1 & _ & R2 & _ & W2 & V & E & _).
  split.
  - apply foldM_each_ok in V. eapply Forall_impl; [|exact V].
    intros w (a1 & a2 & S). apply get_vertices_step_inv in S as (v & T & _).
    rewrite R1 in T.
    pose proof (transform_is_ok reflections w (Cell_v0 c1)) as K.
    rewrite T in K. simpl in K. symmetry in K.
    unfold word_in_range in K. rewrite forallb_forall in K.
    apply Forall_forall. intros g Hg. apply Nat.ltb_lt; auto.
  - intros Wne i Hi. apply In_enumerate_iff in Hi.
    apply foldM_each_ok in E. rewrite Forall_forall in E.
    destruct (E _ Hi) as (s1 & s2 & G).
    unfold get_edges_gen in G; simpl in G. rewrite W2 in G.
    destruct (traverse cox_mat None None) as [|w ws]; [contradiction|].
    simpl in G. apply bind_Ok in G as (s3 & S & _).
    apply get_edges_step_inv in S as (p1 & p2 & _ & T & _).
    rewrite R2 in T.
    assert (K : is_ok (transform reflections (w ++ [i]) (Cell_v0 c2)) = true)
      by (rewrite T; reflexivity).
    rewrite transform_is_ok, word_in_range_snoc in K.
    apply andb_true_iff in K as [_ K]. apply Nat.ltb_lt; exact K.
Qed.

End CellProperties.

(** ** Keys that are found again *)

Section Reflexive.

Context {F : Type} {FO : FloatOps F} {HP : Helpers F} {CG : CoxeterGroup}.

Local Abbreviation vec := (vec F).
Local Abbreviation key := (key F).
Local Abbreviation edge := (edge F).
Local Abbreviation Cell := (Cell F).
Local Abbreviation Honeycomb := (Honeycomb F).

(** No NaN among the coordinates. *)
Hypothesis feqb_refl : forall x : F, feqb x x = true.

Lemma key_mem_last (k : key) (s : list key) : key_mem k (s ++ [k]) = true.
Proof.
  unfold key_mem. rewrite existsb_app. simpl.
  rewrite (key_eqb_refl feqb_refl), orb_true_r. reflexivity.
Qed.

Lemma get_vertices_covers (c : Cell) (l : list word) :
  forall acc acc',
    foldM (get_vertices_step c) l acc = Ok acc' ->
    Forall (fun w => exists v,
                transform (Cell_reflections c) w (Cell_v0 c) = Ok v
                /\ key_mem v acc' = true) l.
Proof.
  induction l as [|w l IH]; intros acc acc' H; simpl in H; constructor.
  - apply bind_Ok in H as (acc1 & S & H).
    apply get_vertices_loop in H as (Ext & _).
    apply get_vertices_step_inv in S as (v & T & [[_ ->]|[M ->]]);
      exists v; (split; [exact T|]);
      (eapply extends_key_mem; [exact Ext|]);
      [apply key_mem_last | exact M].
  - apply bind_Ok in H as (acc1 & _ & H). eapply IH; exact H.
Qed.

(** X4.  With reflexive float equality, after [build_geometry] on a
    new cell the point of every word of the traversal is found in the
    vertex list, and so is the first endpoint of every stored edge. *)
Theorem X4_vertices_cover_words (cox_mat : matrix) (v0 : vec)
  (active : list bool) (reflections : list (vec -> vec)) (C : Cell) :
  Cell_build_geometry (Cell_init cox_mat v0 active reflections) = Ok C ->
  Forall (fun w => exists v,
              transform reflections w v0 = Ok v
              /\ key_mem v (Cell_vertices_coords C) = true)
         (traverse cox_mat None None)
  /\ Forall (fun e => key_mem (fst e) (Cell_vertices_coords C) = true)
            (Cell_edge_coords C).
Proof.
  intros H.
  assert (Cov : Forall (fun w => exists v,
                          transform reflections w v0 = Ok v
                          /\ key_mem v (Cell_vertices_coords C) = true)
                       (traverse cox_mat None None)).
  { apply build_geometry_inv in H
      as (c1 & c2 & vs & st & R1 & V1 & _ & _ & _ & V & _ & ->).
    simpl. apply get_vertices_covers in V. rewrite R1, V1 in V. exact V. }
  split; [exact Cov|].
  unfold Cell_build_geometry in H. apply bind_Ok in H as (c2 & V & E).
  unfold Cell_get_vertices in V. apply bind_Ok in V as (vs & _ & V).
  injection V as <-.
  pose proof E as E'. apply get_edges_made in E'; [|constructor]. simpl in E'.
  unfold Cell_get_edges in E. apply bind_Ok in E as (st & _ & E).
  injection E as <-. simpl in *.
  eapply Forall_impl; [|exact E'].
  intros e (w & i & u1 & u2 & Hw & _ & U1 & _ & ->). simpl in *.
  rewrite Forall_forall in Cov. destruct (Cov w Hw) as (v & T & M).
  unfold transform in T. rewrite U1 in T. simpl in T. injection T as <-.
  exact M.
Qed.

(** X9.  With reflexive float equality, [is_new_edge] answers [True]
    exactly when the midpoint key is not in the registry; afterwards the
    key is in the registry, which has grown by that one key or not at
    all and has lost nothing, and asking again for the same edge answers
    [False] and changes nothing. *)
Theorem X9_is_new_edge_once (h h' : Honeycomb) (e : edge) (b : bool) :
  is_new_edge h e = (h', b) ->
  b = negb (key_mem (centroid e) (edge_hash_set h))
  /\ edge_hash_set h'
     = edge_hash_set h ++ (if b then [centroid e] else [])
  /\ key_mem (centroid e) (edge_hash_set h') = true
  /\ is_new_edge h' e = (h', false).
Proof.
  intros H. destruct b.
  - apply is_new_edge_true in H as (M & R & _).
    assert (K : key_mem (centroid e) (edge_hash_set h') = true)
      by (rewrite R; apply key_mem_last).
    split; [rewrite M; reflexivity|]. split; [exact R|].
    split; [exact K | apply is_new_edge_registered; exact K].
  - apply is_new_edge_false in H as (M & ->).
    split; [rewrite M; reflexivity|].
    split; [rewrite app_nil_r; reflexivity|].
    split; [exact M | apply is_new_edge_registered; exact M].
Qed.

(** Float addition is commutative. *)
Hypothesis fadd_comm : forall x y : F, fadd x y = fadd y x.

Lemma vadd_comm (u v : vec) : vadd u v = vadd v u.
Proof.
  unfold vadd. revert v; induction u as [|x u IH]; intros [|y v]; simpl;
    try reflexivity.
  rewrite fadd_comm, IH. reflexivity.
Qed.

(** X10.  With reflexive float equality and commutative float addition,
    the midpoint key does not depend on the order of the endpoints, and
    once an edge has been asked for, the edge with its endpoints swapped
    is not new. *)
Theorem X10_swapped_edge_is_known (h h' : Honeycomb) (p q : key) (b : bool) :
  is_new_edge h (p, q) = (h', b) ->
  centroid (q, p) = centroid (p, q)
  /\ is_new_edge h' (q, p) = (h', false).
Proof.
  intros H.
  assert (E : centroid (q, p) = centroid (p, q))
    by (unfold centroid; simpl; rewrite vadd_comm; reflexivity).
  split; [exact E|].
  apply is_new_edge_registered. rewrite E.
  destruct b.
  - apply is_new_edge_true in H as (_ & R & _). rewrite R. apply key_mem_last.
  - apply is_new_edge_false in H as (M & ->). exact M.
Qed.

End Reflexive.

(** ** The fundamental edges *)

Section Collect.

Context {F : Type} {FO : FloatOps F} {HP : Helpers F}.

Local Abbreviation vec := (vec F).
Local Abbreviation key := (key F).
Local Abbreviation edge := (edge F).
Local Abbreviation Cell := (Cell F).
Local Abbreviation Honeycomb := (Honeycomb F).

Lemma set_edge_hash_set_same (h : Honeycomb) :
  set_edge_hash_set h (edge_hash_set h) = h.
Proof. destruct h; reflexivity. Qed.

Lemma collect_step_collecting (h : Honeycomb) (st : Honeycomb * list edge)
  (e : edge) :
  cell_edge h e -> collecting h st -> collecting h (collect_step st e).
Proof.
  intros He (Sh & Fr & Di). destruct st as [h' acc]; simpl in *.
  unfold collect_step; simpl.
  destruct (is_new_edge h' e) as [h2 b] eqn:N. destruct b.
  - pose proof (is_new_edge_true _ _ N) as (M & R & _).
    unfold is_new_edge in N. rewrite M in N. simpl in N.
    injection N as <-. unfold set_add. rewrite M.
    unfold collecting; simpl. split; [|split].
    + rewrite Sh; simpl. rewrite map_app, app_assoc. reflexivity.
    + apply Forall_app; split; [exact Fr | constructor; [exact He | constructor]].
    + intros D. apply distinct_keys_snoc; auto.
  - apply is_new_edge_false in N as (_ & ->).
    unfold collecting; simpl. auto.
Qed.

Lemma collect_collecting (h h1 : Honeycomb) (init_edges : list edge) :
  collect_fundamental_cell_edges h = (h1, init_edges) ->
  collecting h (h1, init_edges).
Proof.
  unfold collect_fundamental_cell_edges. intros H. rewrite <- H.
  apply (fold_left_invariant (collecting h)).
  - intros st C HC Cst.
    apply (fold_left_invariant (collecting h)); [|exact Cst].
    intros st' e He Cst'. apply collect_step_collecting; [|exact Cst'].
    exists C. auto.
  - unfold collecting; simpl. rewrite app_nil_r, set_edge_hash_set_same.
    split; [reflexivity|]. split; [constructor | auto].
Qed.

(** X7.  [collect_fundamental_cell_edges] changes nothing of the
    instance but the registry, to which it appends the midpoint keys of
    the edges it returns, in their order; every returned edge is an edge
    of a fundamental cell; and a registry without two equal keys stays
    so. *)
Theorem X7_collect_appends_midpoints (h h1 : Honeycomb)
  (init_edges : list edge) :
  collect_fundamental_cell_edges h = (h1, init_edges) ->
  h1 = set_edge_hash_set h
         (edge_hash_set h ++ map centroid init_edges)
  /\ Forall (cell_edge h) init_edges
  /\ (distinct_keys (edge_hash_set h) -> distinct_keys (edge_hash_set h1)).
Proof. intros H. exact (collect_collecting _ H). Qed.

(** Reflexive float equality. *)
Hypothesis feqb_refl : forall x : F, feqb x x = true.

(** X8.  With reflexive float equality, on an instance whose registry
    is empty the returned edges represent the edges of the cells: no two
    of them have equal midpoint keys, the midpoint key of every edge of
    every cell is equal to that of a returned edge, and collecting again
    returns no edge and changes nothing. *)
Theorem X8_collect_representatives (h h1 : Honeycomb)
  (init_edges : list edge) :
  edge_hash_set h = [] ->
  collect_fundamental_cell_edges h = (h1, init_edges) ->
  distinct_keys (map centroid init_edges)
  /\ registered (map snd (fundamental_cells h))
       (map centroid init_edges)
  /\ collect_fundamental_cell_edges h1 = (h1, []).
Proof.
  intros Z H. pose proof (collect_collecting _ H) as (Sh & _ & Di).
  simpl in Sh, Di. rewrite Z in Sh, Di. simpl in Sh.
  assert (R : edge_hash_set h1 = map centroid init_edges)
    by (rewrite Sh; reflexivity).
  assert (Reg : registered (map snd (fundamental_cells h)) (edge_hash_set h1)).
  { pose proof (collect_cells_registers feqb_refl
                  (map snd (fundamental_cells h)) (h, [])) as Reg.
    unfold collect_fundamental_cell_edges in H. rewrite H in Reg. exact Reg. }
  split; [rewrite <- R; apply Di, distinct_keys_nil|].
  split; [rewrite <- R; exact Reg|].
  unfold collect_fundamental_cell_edges.
  apply collect_registered_skip.
  replace (fundamental_cells h1) with (fundamental_cells h)
    by (rewrite Sh; reflexivity).
  exact Reg.
Qed.

End Collect.

(** ** The file and the counters *)

Section FileFormat.

Context {F : Type} {FO : FloatOps F} {HP : Helpers F} {CG : CoxeterGroup}.

Local Abbreviation vec := (vec F).
Local Abbreviation key := (key F).
Local Abbreviation edge := (edge F).
Local Abbreviation Honeycomb := (Honeycomb F).
Local Abbreviation export_state := (export_state F).

Lemma add_vertex_counts (st : export_state) (v : vec) (m0 : nat) :
  st_f (add_vertex st v) = st_f st
  /\ num_edges (st_self (add_vertex st v)) = num_edges (st_self st)
  /\ length (st_vertices (add_vertex st v)) <= length (st_vertices st) + 1
  /\ (num_vertices (st_self st) = m0 + length (st_vertices st) ->
      num_vertices (st_self (add_vertex st v))
      = m0 + length (st_vertices (add_vertex st v)))
  /\ (distinct_keys (st_vertices st) ->
      distinct_keys (st_vertices (add_vertex st v))).
Proof.
  unfold add_vertex, set_add.
  destruct (key_mem (vround v) (st_vertices st)) eqn:M; simpl.
  - repeat split; auto; lia.
  - rewrite length_app; simpl. repeat split; auto; try lia.
    intros D. apply distinct_keys_snoc; auto.
Qed.

Lemma add_new_edge_file_inv (eye viewdir : vec) (hdr : list pov_line)
  (n0 m0 : nat) (st : export_state) (e : edge) :
  file_inv hdr n0 m0 st -> file_inv hdr n0 m0 (add_new_edge eye viewdir st e).
Proof.
  intros (lines & Ef & Fl & Ne & Nv & Lv & Dv). unfold add_new_edge.
  destruct (in_view eye viewdir (project (fst e))
            || in_view eye viewdir (project (snd e)));
    [|exists lines; repeat split; auto].
  simpl fold_left.
  match goal with
  | |- file_inv _ _ _ (add_vertex (add_vertex ?s ?a) ?b) =>
      destruct (add_vertex_counts s a m0) as (F1 & E1 & L1 & V1 & D1);
      destruct (add_vertex_counts (add_vertex s a) b m0)
        as (F2 & E2 & L2 & V2 & D2)
  end.
  simpl in F1, E1, L1, V1, D1.
  exists (lines ++ [HyperbolicEdge (pov_vector (project (fst e)))
                                   (pov_vector (project (snd e)))]).
  rewrite F2, F1, E2, E1, length_app. simpl.
  split; [unfold export_edge; rewrite Ef, app_assoc; reflexivity|].
  split; [apply Forall_app; split; [exact Fl|];
          constructor; [eexists _, _; reflexivity | constructor]|].
  split; [lia|]. split; [auto|]. split; [lia|auto].
Qed.

Lemma expand_edge_file_inv (eye viewdir : vec) (hdr : list pov_line)
  (n0 m0 : nat) (w : word) (st st' : export_state) (e : edge) :
  file_inv hdr n0 m0 st ->
  expand_edge eye viewdir w st e = Ok st' ->
  file_inv hdr n0 m0 st'.
Proof.
  intros I X.
  apply expand_edge_inv in X as (p & q & _ & _ & [[_ ->]|[_ X]]); [exact I|].
  destruct X as (h' & N & ->).
  apply is_new_edge_true in N as (_ & _ & _ & NV & NE).
  apply add_new_edge_file_inv.
  destruct I as (lines & Ef & Fl & Ne & Nv & Lv & Dv).
  exists lines. simpl. rewrite NV, NE. repeat split; auto.
Qed.

(** X11.  The file of a successful export is the two camera lines, then
    HyperbolicEdge records only, then the two vertex lines, which both
    carry the vertex counter of the instance.  The edge counter has
    grown by the number of records and the vertex counter by the size of
    the vertex set of this export, which holds pairwise different keys,
    at most two per record.  On a new instance (both counters zero) the
    declared vertex count is therefore the size of the array written. *)
Theorem X11_file_and_counters (h h' : Honeycomb) (depth maxcount : nat)
  (eye lookat : vec) (f : list pov_line) :
  generate_povray_data h depth maxcount eye lookat = Ok (h', f) ->
  exists (lines : list pov_line) (vertices : list key),
    f = [DeclareCameraLoc (pov_vector eye); DeclareLookat (pov_vector lookat)]
        ++ lines
        ++ [DeclareNumVertices (num_vertices h');
            DeclareVertices (num_vertices h') (pov_vector_list vertices)]
    /\ Forall is_edge_line lines
    /\ num_edges h' = num_edges h + length lines
    /\ num_vertices h' = num_vertices h + length vertices
    /\ length vertices <= 2 * length lines
    /\ distinct_keys vertices.
Proof.
  intros G. unfold generate_povray_data in G.
  destruct (collect_fundamental_cell_edges h) as [h1 init_edges] eqn:Col.
  apply bind_Ok in G as (st2 & X & G). injection G as <- <-.
  apply collect_collected in Col as (_ & _ & NE & NV & _).
  set (hdr := [DeclareCameraLoc (pov_vector eye);
               DeclareLookat (pov_vector lookat)]) in *.
  set (viewdir := normalize (vsub lookat eye)) in *.
  assert (I0 : file_inv hdr (num_edges h) (num_vertices h) (mkState h1 hdr [])).
  { exists []. simpl. rewrite NE, NV.
    split; [subst hdr; reflexivity|]. split; [constructor|].
    split; [lia|]. split; [lia|]. split; [lia | apply distinct_keys_nil]. }
  assert (I1 : file_inv hdr (num_edges h) (num_vertices h)
                 (fold_left (add_new_edge eye viewdir) init_edges
                    (mkState h1 hdr []))).
  { apply (fold_left_invariant (file_inv hdr (num_edges h) (num_vertices h)));
      [|exact I0].
    intros a x _ Ia. apply add_new_edge_file_inv; exact Ia. }
  assert (I2 : file_inv hdr (num_edges h) (num_vertices h) st2).
  { revert X.
    apply (foldM_invariant (file_inv hdr (num_edges h) (num_vertices h)));
      [|exact I1].
    intros a w a' Ia. unfold expand_word.
    apply (foldM_invariant (file_inv hdr (num_edges h) (num_vertices h)));
      [|exact Ia].
    intros b x b' Ib Xb. eapply expand_edge_file_inv; eauto. }
  destruct I2 as (lines & Ef & Fl & Ne & Nv & Lv & Dv).
  exists lines, (st_vertices st2).
  rewrite Ef, <- app_assoc. repeat split; auto.
Qed.

End FileFormat.

(** ** An export whose traversal yields only the empty word *)

Lemma foldM_skip_In {A B : Type} (f : A -> B -> result A) (l : list B) (a : A) :
  (forall x, In x l -> f a x = Ok a) -> foldM f l a = Ok a.
Proof.
  induction l as [|x l IH]; intros H; simpl; [reflexivity|].
  rewrite (H x (or_introl eq_refl)); simpl.
  apply IH. intros y Hy; apply H; right; exact Hy.
Qed.

Section SeedOnly.

Context {F : Type} {FO : FloatOps F} {HP : Helpers F} {CG : CoxeterGroup}.

Local Abbreviation vec := (vec F).
Local Abbreviation key := (key F).
Local Abbreviation edge := (edge F).
Local Abbreviation Cell := (Cell F).
Local Abbreviation Honeycomb := (Honeycomb F).
Local Abbreviation export_state := (export_state F).

Lemma Honeycomb_init_new (d : list Z) (dist : list F) (h : Honeycomb) :
  Honeycomb_init d dist = Ok h ->
  edge_hash_set h = [] /\ num_vertices h = 0 /\ num_edges h = 0.
Proof.
  unfold Honeycomb_init.
  destruct (negb (length d =? 6) || negb (length dist =? 4));
    [discriminate|].
  intros H. apply bind_Ok in H as (cells & _ & H). injection H as <-. auto.
Qed.

Lemma st_f_add_new_edge (eye viewdir : vec) (st : export_state) (e : edge) :
  st_f (add_new_edge eye viewdir st e)
  = st_f st ++ (if visible eye viewdir e then [edge_record e] else []).
Proof.
  unfold add_new_edge, visible.
  destruct (in_view eye viewdir (project (fst e))
            || in_view eye viewdir (project (snd e))).
  - simpl fold_left. rewrite !st_f_add_vertex. reflexivity.
  - rewrite app_nil_r. reflexivity.
Qed.

Lemma seed_emission_file (eye viewdir : vec) (es : list edge) :
  forall st : export_state,
    st_f (fold_left (add_new_edge eye viewdir) es st)
    = st_f st ++ map edge_record (filter (visible eye viewdir) es)
    /\ num_edges (st_self (fold_left (add_new_edge eye viewdir) es st))
       = num_edges (st_self st) + length (filter (visible eye viewdir) es).
Proof.
  induction es as [|e es IH]; intros st; simpl.
  - rewrite app_nil_r. split; [reflexivity | lia].
  - destruct (IH (add_new_edge eye viewdir st e)) as (Ef & En).
    rewrite Ef, En, st_f_add_new_edge.
    destruct (add_new_edge_self eye viewdir st e) as (_ & _ & C & _).
    rewrite C. fold (visible eye viewdir e).
    destruct (visible eye viewdir e); simpl.
    + rewrite <- app_assoc. split; [reflexivity | lia].
    + rewrite app_nil_r. split; [reflexivity | lia].
Qed.

(** Rounding a rounded float changes nothing. *)
Hypothesis fround8_idem : forall x : F, fround8 (fround8 x) = fround8 x.

Lemma vround_idem (v : vec) : vround (vround v) = vround v.
Proof.
  unfold vround. rewrite map_map. apply map_ext. exact fround8_idem.
Qed.

Lemma build_geometry_rounded (cox_mat : matrix) (v0 : vec)
  (active : list bool) (reflections : list (vec -> vec)) (C : Cell) :
  Cell_build_geometry (Cell_init cox_mat v0 active reflections) = Ok C ->
  Forall rounded_edge (Cell_edge_coords C).
Proof.
  intros H. unfold Cell_build_geometry in H. apply bind_Ok in H as (c2 & V & E).
  unfold Cell_get_vertices in V. apply bind_Ok in V as (vs & _ & V).
  injection V as <-. apply get_edges_made in E; [|constructor].
  eapply Forall_impl; [|exact E].
  intros e (w & i & u1 & u2 & _ & _ & _ & _ & ->).
  split; simpl; apply vround_idem.
Qed.

Lemma Honeycomb_init_rounded (d : list Z) (dist : list F) (h : Honeycomb) :
  Honeycomb_init d dist = Ok h ->
  forall e, cell_edge h e -> rounded_edge e.
Proof.
  unfold Honeycomb_init.
  destruct (negb (length d =? 6) || negb (length dist =? 4));
    [discriminate|].
  intros H. apply bind_Ok in H as (cells & G & H). injection H as <-.
  unfold get_fundamental_cells in G.
  apply get_fundamental_cells_loop in G;
    [| exact NoDup_combinations_4_3 | intros t _ []].
  destruct G as (added & -> & _ & B). simpl in B.
  intros e (C & HC & He). simpl in HC.
  apply in_map_iff in HC as ([t C'] & <- & Hin). simpl in *.
  rewrite Forall_forall in B. specialize (B _ Hin). simpl in B.
  unfold build_cell in B. apply bind_Ok in B as ([[cm refs] act] & _ & B).
  apply build_geometry_rounded in B. rewrite Forall_forall in B. auto.
Qed.

(** Reflexive float equality. *)
Hypothesis feqb_refl : forall x : F, feqb x x = true.

Lemma expand_edge_known (eye viewdir : vec) (st : export_state) (e : edge) :
  rounded_edge e ->
  key_mem (centroid e) (edge_hash_set (st_self st)) = true ->
  expand_edge eye viewdir [] st e = Ok st.
Proof.
  intros [R1 R2] M. unfold expand_edge, Honeycomb_transform, transform.
  simpl. rewrite R1, R2, <- surjective_pairing.
  rewrite (is_new_edge_registered _ _ M). destruct st; reflexivity.
Qed.

(** X12.  With idempotent rounding and reflexive float equality, an
    export on a new instance whose traversal yields nothing but empty
    words ends without an exception and writes, between the camera
    lines and the vertex lines, exactly the records of the fundamental
    edges that pass the camera test, in the order in which they were
    collected; the expansion adds no edge.  The edge counter ends as
    the number of these records and the registry as the midpoint keys
    of the fundamental edges. *)
Theorem X12_seed_phase_only (coxeter_diagram : list Z) (init_dist : list F)
  (h h1 : Honeycomb) (init_edges : list edge) (depth maxcount : nat)
  (eye lookat : vec) :
  Honeycomb_init coxeter_diagram init_dist = Ok h ->
  collect_fundamental_cell_edges h = (h1, init_edges) ->
  Forall (fun w => w = []) (traverse (cox_mat h) (Some depth) (Some maxcount)) ->
  exists (h' : Honeycomb) (vertices : list key),
    generate_povray_data h depth maxcount eye lookat
    = Ok (h',
          [DeclareCameraLoc (pov_vector eye); DeclareLookat (pov_vector lookat)]
          ++ map edge_record
               (filter (visible eye (normalize (vsub lookat eye))) init_edges)
          ++ [DeclareNumVertices (num_vertices h');
              DeclareVertices (num_vertices h') (pov_vector_list vertices)])
    /\ num_edges h'
       = length (filter (visible eye (normalize (vsub lookat eye))) init_edges)
    /\ edge_hash_set h' = map centroid init_edges.
Proof.
  intros Hi Col W.
  pose proof (Honeycomb_init_new _ _ Hi) as (Z & _ & ZE).
  pose proof (collect_collecting _ Col) as (Sh & Ce & _). simpl in Sh, Ce.
  rewrite Z in Sh. simpl in Sh.
  set (viewdir := normalize (vsub lookat eye)) in *.
  set (hdr := [DeclareCameraLoc (pov_vector eye);
               DeclareLookat (pov_vector lookat)]).
  set (st1 := fold_left (add_new_edge eye viewdir) init_edges
                (mkState h1 hdr [])).
  destruct (seed_emission_file eye viewdir init_edges (mkState h1 hdr []))
    as (Ef & En).
  destruct (seed_emission_self eye viewdir init_edges (mkState h1 hdr []))
    as (A & _).
  fold st1 in Ef, En, A. simpl in Ef, En, A.
  assert (R1 : edge_hash_set (st_self st1) = map centroid init_edges)
    by (rewrite A, Sh; reflexivity).
  assert (X : foldM (expand_word eye viewdir init_edges)
                (traverse (cox_mat h) (Some depth) (Some maxcount)) st1
              = Ok st1).
  { apply foldM_skip_In. intros w Hw.
    rewrite Forall_forall in W. rewrite (W w Hw).
    unfold expand_word. apply foldM_skip_In. intros e He.
    apply expand_edge_known.
    - apply (Honeycomb_init_rounded _ _ Hi).
      rewrite Forall_forall in Ce. auto.
    - rewrite R1. apply key_mem_In with (k' := centroid e).
      + apply in_map; exact He.
      + apply key_eqb_refl; exact feqb_refl. }
  exists (st_self st1), (st_vertices st1).
  unfold generate_povray_data. rewrite Col. fold viewdir. fold hdr. fold st1.
  rewrite X. simpl bind. rewrite Ef.
  split; [reflexivity|]. split; [|exact R1].
  rewrite En. replace (num_edges h1) with (num_edges h)
    by (rewrite Sh; reflexivity).
  rewrite ZE. reflexivity.
Qed.

End SeedOnly.

(** ** When the construction and the export return *)

Lemma foldM_each_ok_inv {A B : Type} (P : A -> Prop) (f : A -> B -> result A)
  (l : list B) :
  (forall a x a', P a -> f a x = Ok a' -> P a') ->
  forall a a', P a -> foldM f l a = Ok a' ->
    Forall (fun x => exists a1 a2, P a1 /\ f a1 x = Ok a2) l.
Proof.
  intros Hp. induction l as [|x l IH]; intros a a' Pa H; simpl in H;
    constructor.
  - apply bind_Ok in H as (a1 & H1 & _). eauto.
  - apply bind_Ok in H as (a1 & H1 & H2). eapply IH; [|exact H2]. eauto.
Qed.

Section Raising.

Context {F : Type} {FO : FloatOps F} {HP : Helpers F} {CG : CoxeterGroup}.

Local Abbreviation vec := (vec F).
Local Abbreviation key := (key F).
Local Abbreviation edge := (edge F).
Local Abbreviation Cell := (Cell F).
Local Abbreviation Honeycomb := (Honeycomb F).
Local Abbreviation export_state := (export_state F).

Lemma mapM_subscript_Ok {A : Type} (l : list A) (idx : list nat) (r : list A) :
  mapM (subscript l) idx = Ok r -> Forall (fun i => i < length l) idx.
Proof.
  revert r; induction idx as [|i idx IH]; intros r H; simpl in H; constructor.
  - apply bind_Ok in H as (x & S & _). unfold subscript in S.
    destruct (nth_error l i) eqn:N; [|discriminate].
    apply nth_error_Some; congruence.
  - apply bind_Ok in H as (x & _ & H). apply bind_Ok in H as (ys & H & _).
    eapply IH; exact H.
Qed.

(** X13.  With a diagram of 6 values and 4 distances, when the helper
    returns fewer than 4 mirrors the constructor raises [IndexError]:
    the reflections of a triple are looked up before its degeneracy is
    tested, so that no choice of active mirrors avoids it. *)
Theorem X13_too_few_mirrors (coxeter_diagram : list Z) (init_dist : list F) :
  length coxeter_diagram = 6 ->
  length init_dist = 4 ->
  length (get_hyperbolic_honeycomb_mirrors coxeter_diagram) < 4 ->
  Honeycomb_init coxeter_diagram init_dist = Raise IndexError.
Proof.
  intros L6 L4 Lm.
  destruct (Honeycomb_init coxeter_diagram init_dist) as [h|e] eqn:E.
  - exfalso. unfold Honeycomb_init in E. rewrite L6, L4 in E. simpl in E.
    apply bind_Ok in E as (cells & G & _).
    unfold get_fundamental_cells in G. apply foldM_each_ok in G.
    rewrite Forall_forall in G.
    destruct (G [0; 1; 3]) as (res & res' & S);
      [simpl; auto|].
    unfold fundamental_cells_step in S.
    apply bind_Ok in S as ([[cm refs] act] & R & _).
    unfold restrict in R. apply bind_Ok in R as (m & _ & R).
    apply bind_Ok in R as (rs & R & _).
    apply mapM_subscript_Ok in R. rewrite Forall_forall in R.
    specialize (R 3). unfold get_reflections, get_mirrors in R.
    rewrite length_map in R. simpl in R.
    assert (H3 : 3 < length (get_hyperbolic_honeycomb_mirrors coxeter_diagram))
      by (apply R; right; right; left; reflexivity).
    lia.
  - assert (I : index_only (Honeycomb_init coxeter_diagram init_dist)).
    { unfold Honeycomb_init. rewrite L6, L4. simpl.
      apply index_only_bind;
        [apply index_only_get_fundamental_cells | intros; apply index_only_Ok]. }
    rewrite (I _ E). reflexivity.
Qed.

End Raising.

Section Succeeding.

Context {F : Type} {FO : FloatOps F} {HP : Helpers F} {CG : CoxeterGroup}.

Local Abbreviation vec := (vec F).
Local Abbreviation key := (key F).
Local Abbreviation edge := (edge F).
Local Abbreviation Cell := (Cell F).
Local Abbreviation Honeycomb := (Honeycomb F).
Local Abbreviation export_state := (export_state F).

Lemma restrict_total (d : list Z) (refl : list (vec -> vec))
  (act : list bool) (t : list nat) :
  4 <= length refl ->
  length act = 4 ->
  In t (combinations [0; 1; 2; 3] 3) ->
  exists cm refs a,
    restrict (make_symmetry_matrix d) refl act t = Ok (cm, refs, a)
    /\ length cm = 3 /\ length refs = 3 /\ length a = 3.
Proof.
  intros Lr La Ht.
  destruct refl as [|r0 [|r1 [|r2 [|r3 refl]]]]; simpl in Lr; try lia.
  destruct act as [|a0 [|a1 [|a2 [|a3 [|a4 act]]]]]; simpl in La; try lia.
  simpl in Ht.
  destruct Ht as [<-|[<-|[<-|[<-|[]]]]];
    eexists _, _, _; (split; [reflexivity|]); auto.
Qed.

Lemma fundamental_cells_step_total (d : list Z) (refl : list (vec -> vec))
  (act : list bool) (v0 : vec) (res : list (list nat * Cell)) (t : list nat) :
  (forall m, length m = 3 ->
     Forall (Forall (fun g => g < 3)) (traverse m None None)) ->
  4 <= length refl ->
  length act = 4 ->
  In t (combinations [0; 1; 2; 3] 3) ->
  exists res',
    fundamental_cells_step (make_symmetry_matrix d) refl act v0 res t = Ok res'.
Proof.
  intros Eng Lr La Ht.
  destruct (@restrict_total d refl act t Lr La Ht)
    as (cm & refs & a & R & Lc & Lf & Lac).
  unfold fundamental_cells_step. rewrite R; simpl.
  destruct (is_degenerate cm a); simpl; [eauto|].
  destruct (@build_geometry_total F FO HP CG cm v0 a refs) as [C B].
  - specialize (Eng cm Lc). eapply Forall_impl; [|exact Eng].
    intros w Hw. unfold word_in_range. apply forallb_forall.
    rewrite Forall_forall in Hw. intros g Hg. rewrite Lf.
    apply Nat.ltb_lt. auto.
  - intros _ i Hi. rewrite Lf, <- Lac. apply nth_error_Some. congruence.
  - rewrite B; simpl. eauto.
Qed.

(** X14.  With a diagram of 6 values, 4 distances, at least 4 mirrors
    from the helper and a group engine whose words for a matrix of rank
    3 use the generators 0, 1, 2 only, the constructor returns an
    instance: of rank 4, with the Coxeter matrix, the mirrors and the
    initial point of the helpers, one reflection per mirror, a mirror
    active exactly where the distance is not zero, an empty registry
    and zero counters. *)
Theorem X14_constructor_returns (coxeter_diagram : list Z) (init_dist : list F) :
  length coxeter_diagram = 6 ->
  length init_dist = 4 ->
  4 <= length (get_hyperbolic_honeycomb_mirrors coxeter_diagram) ->
  (forall m, length m = 3 ->
     Forall (Forall (fun g => g < 3)) (traverse m None None)) ->
  exists h,
    Honeycomb_init coxeter_diagram init_dist = Ok h
    /\ cox_mat h = make_symmetry_matrix coxeter_diagram
    /\ rank h = 4
    /\ gens h = [0; 1; 2; 3]
    /\ active h = map (fun x => negb (feqb x f0)) init_dist
    /\ mirrors h = get_hyperbolic_honeycomb_mirrors coxeter_diagram
    /\ length (reflections h) = length (mirrors h)
    /\ init_v h = get_point_from_distance (mirrors h) init_dist
    /\ edge_hash_set h = []
    /\ num_vertices h = 0
    /\ num_edges h = 0.
Proof.
  intros L6 L4 Lm Eng. unfold Honeycomb_init. rewrite L6, L4. simpl.
  match goal with
  | |- exists h, bind ?c _ = _ /\ _ => assert (G : exists cells, c = Ok cells)
  end.
  { unfold get_fundamental_cells. apply foldM_total.
    intros res t Ht. apply fundamental_cells_step_total; auto.
    - unfold get_reflections, get_mirrors. rewrite length_map. exact Lm.
    - rewrite length_map. exact L4. }
  destruct G as [cells G]. rewrite G. simpl.
  eexists. split; [reflexivity|]. simpl.
  repeat (split; [reflexivity|]).
  split; [unfold get_reflections; apply length_map|].
  repeat split.
Qed.

(** *** The export *)

(** X15.  An export returns only if there is no fundamental edge to
    expand or every letter of every word of the bounded traversal is the
    index of a reflection of the instance. *)
Theorem X15_export_needs_valid_words (h h' : Honeycomb) (depth maxcount : nat)
  (eye lookat : vec) (f : list pov_line) :
  generate_povray_data h depth maxcount eye lookat = Ok (h', f) ->
  snd (collect_fundamental_cell_edges h) = []
  \/ Forall (Forall (fun g => g < length (reflections h)))
            (traverse (cox_mat h) (Some depth) (Some maxcount)).
Proof.
  unfold generate_povray_data.
  destruct (collect_fundamental_cell_edges h) as [h1 init_edges] eqn:Col.
  simpl snd.
  pose proof (collect_collected _ Col) as (_ & (_ & Rh & _) & _).
  set (viewdir := normalize (vsub lookat eye)).
  set (st1 := fold_left (add_new_edge eye viewdir) init_edges
                (mkState h1 [DeclareCameraLoc (pov_vector eye);
                             DeclareLookat (pov_vector lookat)] [])).
  assert (R1 : reflections (st_self st1) = reflections h).
  { destruct (seed_emission_self eye viewdir init_edges
                (mkState h1 [DeclareCameraLoc (pov_vector eye);
                             DeclareLookat (pov_vector lookat)] []))
      as (_ & (_ & Rs & _) & _).
    fold st1 in Rs. simpl in Rs. congruence. }
  assert (Keep : forall a w a',
             reflections (st_self a) = reflections h ->
             expand_word eye viewdir init_edges a w = Ok a' ->
             reflections (st_self a') = reflections h).
  { intros a w a' Ra X. apply expand_word_later in X.
    apply later_self in X as (_ & (_ & Rx & _) & _). congruence. }
  intros G. apply bind_Ok in G as (st2 & X & _).
  destruct init_edges as [|e0 es]; [left; reflexivity|]. right.
  apply (foldM_each_ok_inv
           (fun a : export_state => reflections (st_self a) = reflections h))
    in X; [|exact Keep|exact R1].
  eapply Forall_impl; [|exact X].
  intros w (a1 & a2 & Ra & Xw). unfold expand_word in Xw. simpl in Xw.
  apply bind_Ok in Xw as (a3 & Xe & _).
  apply expand_edge_inv in Xe as (p & q & P & _).
  unfold Honeycomb_transform in P. rewrite Ra in P.
  pose proof (transform_is_ok (reflections h) w (fst e0)) as K.
  rewrite P in K. simpl in K. symmetry in K.
  unfold word_in_range in K. rewrite forallb_forall in K.
  apply Forall_forall. intros g Hg. apply Nat.ltb_lt; auto.
Qed.

End Succeeding.

(** * The further properties on the instance *)

Section MoreInstances.

Import QArith.
Import Rational.

Local Open Scope Q_scope.

Lemma Q_fadd_comm : forall x y : Q, fadd x y = fadd y x.
Proof.
  intros x y. change (Qred (x + y) = Qred (y + x)).
  apply Qred_complete. apply Qplus_comm.
Qed.

Lemma rint_inject_Z (q : Q) (z : Z) : q == inject_Z z -> rint q = z.
Proof.
  intros E. unfold Qeq in E. simpl in E. rewrite Z.mul_1_r in E.
  unfold rint. rewrite E.
  rewrite Z.div_mul by discriminate.
  rewrite Z.sub_diag, Z.mul_0_r. reflexivity.
Qed.

Lemma Q_fround8_idem : forall x : Q, fround8 (fround8 x) = fround8 x.
Proof.
  intros x. change (round8 (round8 x) = round8 x). unfold round8 at 1.
  set (r := round8 x).
  assert (E : rint (r * (100000000 # 1)) = rint (x * (100000000 # 1))).
  { apply rint_inject_Z. subst r. unfold round8.
    rewrite Qred_correct. unfold Qeq; simpl. lia. }
  rewrite E. reflexivity.
Qed.

Lemma sign_changes_rank3 :
  forall m : matrix, length m = 3%nat ->
    Forall (Forall (fun g => (g < 3)%nat)) (traverse m None None).
Proof.
  intros m L.
  destruct m as [|r0 [|r1 [|r2 [|r3 m]]]]; try discriminate.
  cbv. repeat constructor.
Qed.

Lemma honeycomb0_ok : exists h, Honeycomb_init diagram0 dist0 = Ok h.
Proof. apply is_ok_Ok. vm_compute. reflexivity. Qed.

(** X3 on the cube of the generators 0, 1, 2: 8 words, 8 vertices. *)
Lemma X3_vertex_list_witness :
  exists C,
    Cell_build_geometry cell0 = Ok C
    /\ Cell_num_vertices C = Some (length (Cell_vertices_coords C))
    /\ (length (Cell_vertices_coords C)
        <= length (traverse cox_mat0 None None))%nat
    /\ distinct_keys (Cell_vertices_coords C).
Proof.
  assert (K : is_ok (Cell_build_geometry cell0) = true)
    by (vm_compute; reflexivity).
  destruct (is_ok_Ok _ K) as [C E]. exists C. split; [exact E|].
  destruct (@X3_vertex_list Q Q_FloatOps Q_Helpers sign_changes
              cox_mat0 dist0 [true; true; true] reflections0 C E)
    as (_ & Nv & Len & Dis & _).
  split; [exact Nv|]. split; [exact Len | exact Dis].
Defined.

(** X4 on the same cell. *)
Lemma X4_vertices_cover_words_witness :
  exists C,
    Cell_build_geometry cell0 = Ok C
    /\ Forall (fun e => key_mem (fst e) (Cell_vertices_coords C) = true)
              (Cell_edge_coords C).
Proof.
  assert (K : is_ok (Cell_build_geometry cell0) = true)
    by (vm_compute; reflexivity).
  destruct (is_ok_Ok _ K) as [C E]. exists C. split; [exact E|].
  destruct (@X4_vertices_cover_words Q Q_FloatOps Q_Helpers sign_changes
              Q_feqb_refl cox_mat0 dist0 [true; true; true] reflections0 C E)
    as (_ & Fe).
  exact Fe.
Defined.

(** X5 on the same cell: 12 edges, at most 3 * 8. *)
Lemma X5_edge_list_witness :
  exists C,
    Cell_build_geometry cell0 = Ok C
    /\ Cell_num_edges C = Some (length (Cell_edge_coords C))
    /\ (length (Cell_edge_coords C)
        <= length (filter (fun b => b) [true; true; true])
           * length (traverse cox_mat0 None None))%nat.
Proof.
  assert (K : is_ok (Cell_build_geometry cell0) = true)
    by (vm_compute; reflexivity).
  destruct (is_ok_Ok _ K) as [C E]. exists C. split; [exact E|].
  destruct (@X5_edge_list Q Q_FloatOps Q_Helpers sign_changes
              cox_mat0 dist0 [true; true; true] reflections0 C E)
    as (Ne & _ & Len & _).
  split; [exact Ne | exact Len].
Defined.

(** X7 on the new instance. *)
Lemma X7_collect_appends_midpoints_witness :
  exists h h1 init_edges,
    Honeycomb_init diagram0 dist0 = Ok h
    /\ collect_fundamental_cell_edges h = (h1, init_edges)
    /\ h1 = set_edge_hash_set h (edge_hash_set h ++ map centroid init_edges)
    /\ Forall (cell_edge h) init_edges.
Proof.
  destruct honeycomb0_ok as [h E].
  destruct (collect_fundamental_cell_edges h) as [h1 init_edges] eqn:Col.
  exists h, h1, init_edges. split; [exact E|]. split; [exact Col|].
  destruct (X7_collect_appends_midpoints _ Col) as (Sh & Ce & _).
  split; [exact Sh | exact Ce].
Defined.

(** X8 on the new instance. *)
Lemma X8_collect_representatives_witness :
  exists h h1 init_edges,
    Honeycomb_init diagram0 dist0 = Ok h
    /\ edge_hash_set h = []
    /\ collect_fundamental_cell_edges h = (h1, init_edges)
    /\ distinct_keys (map centroid init_edges)
    /\ collect_fundamental_cell_edges h1 = (h1, []).
Proof.
  destruct honeycomb0_ok as [h E].
  destruct (collect_fundamental_cell_edges h) as [h1 init_edges] eqn:Col.
  exists h, h1, init_edges. split; [exact E|].
  destruct (Honeycomb_init_new _ _ E) as (Z & _).
  split; [exact Z|]. split; [exact Col|].
  destruct (X8_collect_representatives Q_feqb_refl _ Z Col) as (Di & _ & Again).
  split; [exact Di | exact Again].
Defined.

(** X9 on the new instance and the edge [edge0]. *)
Lemma X9_is_new_edge_once_witness :
  exists h h' b,
    Honeycomb_init diagram0 dist0 = Ok h
    /\ is_new_edge h edge0 = (h', b)
    /\ key_mem (centroid edge0) (edge_hash_set h') = true
    /\ is_new_edge h' edge0 = (h', false).
Proof.
  destruct honeycomb0_ok as [h E].
  destruct (is_new_edge h edge0) as [h' b] eqn:N.
  exists h, h', b. split; [exact E|]. split; [exact N|].
  destruct (X9_is_new_edge_once Q_feqb_refl _ _ N) as (_ & _ & M & Again).
  split; [exact M | exact Again].
Defined.

(** X10 on the new instance and the edge [edge0]. *)
Lemma X10_swapped_edge_is_known_witness :
  exists h h' b,
    Honeycomb_init diagram0 dist0 = Ok h
    /\ is_new_edge h edge0 = (h', b)
    /\ is_new_edge h' (snd edge0, fst edge0) = (h', false).
Proof.
  destruct honeycomb0_ok as [h E].
  destruct (is_new_edge h edge0) as [h' b] eqn:N.
  exists h, h', b. split; [exact E|]. split; [exact N|].
  destruct (@X10_swapped_edge_is_known Q Q_FloatOps Q_Helpers
              Q_feqb_refl Q_fadd_comm h h' (fst edge0) (snd edge0) b N)
    as (_ & Again).
  exact Again.
Defined.

(** X11 on the new instance: an export with depth 4. *)
Lemma X11_file_and_counters_witness :
  exists h h' f,
    Honeycomb_init diagram0 dist0 = Ok h
    /\ generate_povray_data h 4 100 eye0 lookat0 = Ok (h', f)
    /\ exists lines vertices,
         f = [DeclareCameraLoc (pov_vector eye0);
              DeclareLookat (pov_vector lookat0)]
             ++ lines
             ++ [DeclareNumVertices (num_vertices h');
                 DeclareVertices (num_vertices h') (pov_vector_list vertices)]
         /\ num_edges h' = (num_edges h + length lines)%nat
         /\ num_vertices h' = (num_vertices h + length vertices)%nat.
Proof.
  assert (K : match Honeycomb_init diagram0 dist0 with
              | Ok h => is_ok (generate_povray_data h 4 100 eye0 lookat0)
              | Raise _ => false
              end = true) by (vm_compute; reflexivity).
  destruct (Honeycomb_init diagram0 dist0) as [h|e] eqn:E; [|discriminate K].
  apply is_ok_Ok in K as ([h' f] & G).
  exists h, h', f. split; [reflexivity|]. split; [exact G|].
  destruct (X11_file_and_counters _ _ _ _ _ G)
    as (lines & vs & Ef & _ & Ne & Nv & _).
  exists lines, vs. split; [exact Ef|]. split; [exact Ne | exact Nv].
Defined.

(** X12 on the new instance: an export with depth 0, whose traversal is
    the empty word alone. *)
Lemma X12_seed_phase_only_witness :
  exists h h1 init_edges,
    Honeycomb_init diagram0 dist0 = Ok h
    /\ collect_fundamental_cell_edges h = (h1, init_edges)
    /\ Forall (fun w => w = []) (traverse (cox_mat h) (Some 0%nat) (Some 100%nat))
    /\ exists h' vertices,
         generate_povray_data h 0 100 eye0 lookat0
         = Ok (h',
               [DeclareCameraLoc (pov_vector eye0);
                DeclareLookat (pov_vector lookat0)]
               ++ map edge_record
                    (filter (visible eye0 (normalize (vsub lookat0 eye0)))
                            init_edges)
               ++ [DeclareNumVertices (num_vertices h');
                   DeclareVertices (num_vertices h')
                                   (pov_vector_list vertices)])
         /\ num_edges h'
            = length (filter (visible eye0 (normalize (vsub lookat0 eye0)))
                             init_edges).
Proof.
  assert (K : match Honeycomb_init diagram0 dist0 with
              | Ok h =>
                  forallb (fun w => match w with [] => true | _ => false end)
                          (traverse (cox_mat h) (Some 0%nat) (Some 100%nat))
              | Raise _ => false
              end = true) by (vm_compute; reflexivity).
  destruct (Honeycomb_init diagram0 dist0) as [h|e] eqn:E; [|discriminate K].
  destruct (collect_fundamental_cell_edges h) as [h1 init_edges] eqn:Col.
  assert (W : Forall (fun w : word => w = [])
                (traverse (cox_mat h) (Some 0%nat) (Some 100%nat))).
  { apply Forall_forall. intros w Hw. rewrite forallb_forall in K.
    specialize (K w Hw). destruct w; [reflexivity | discriminate]. }
  exists h, h1, init_edges.
  split; [reflexivity|]. split; [exact Col|]. split; [exact W|].
  destruct (@X12_seed_phase_only Q Q_FloatOps Q_Helpers sign_changes
              Q_fround8_idem Q_feqb_refl diagram0 dist0 h h1 init_edges
              0%nat 100%nat eye0 lookat0 E Col W)
    as (h' & vs & G & Ne & _).
  exists h', vs. split; [exact G | exact Ne].
Defined.

(** X13 on the helpers that return three mirrors. *)
Lemma X13_too_few_mirrors_witness :
  length diagram0 = 6%nat
  /\ length dist0 = 4%nat
  /\ (length (@get_hyperbolic_honeycomb_mirrors Q Q_Helpers_three diagram0)
      < 4)%nat
  /\ @Honeycomb_init Q Q_FloatOps Q_Helpers_three sign_changes diagram0 dist0
     = Raise IndexError.
Proof.
  assert (L : (length (@get_hyperbolic_honeycomb_mirrors Q Q_Helpers_three
                         diagram0) < 4)%nat) by (vm_compute; lia).
  split; [reflexivity|]. split; [reflexivity|]. split; [exact L|].
  exact (@X13_too_few_mirrors Q Q_FloatOps Q_Helpers_three sign_changes
           diagram0 dist0 eq_refl eq_refl L).
Defined.

(** X14 on the instance. *)
Lemma X14_constructor_returns_witness :
  length diagram0 = 6%nat
  /\ length dist0 = 4%nat
  /\ (4 <= length (@get_hyperbolic_honeycomb_mirrors Q Q_Helpers diagram0))%nat
  /\ exists h,
       Honeycomb_init diagram0 dist0 = Ok h
       /\ rank h = 4%nat
       /\ active h = map (fun x => negb (feqb x f0)) dist0
       /\ edge_hash_set h = [].
Proof.
  assert (L : (4 <= length (@get_hyperbolic_honeycomb_mirrors Q Q_Helpers
                              diagram0))%nat) by (vm_compute; lia).
  split; [reflexivity|]. split; [reflexivity|]. split; [exact L|].
  destruct (@X14_constructor_returns Q Q_FloatOps Q_Helpers sign_changes
              diagram0 dist0 eq_refl eq_refl L sign_changes_rank3)
    as (h & E & _ & Rk & _ & Ac & _ & _ & _ & Z & _).
  exists h. split; [exact E|]. split; [exact Rk|]. split; [exact Ac | exact Z].
Defined.

(** X6 on the cube of the generators 0, 1, 2. *)
Lemma X6_build_geometry_needs_valid_indices_witness :
  exists C,
    Cell_build_geometry cell0 = Ok C
    /\ Forall (Forall (fun g => (g < length reflections0)%nat))
              (traverse cox_mat0 None None).
Proof.
  assert (K : is_ok (Cell_build_geometry cell0) = true)
    by (vm_compute; reflexivity).
  destruct (is_ok_Ok _ K) as [C E]. exists C. split; [exact E|].
  destruct (@X6_build_geometry_needs_valid_indices Q Q_FloatOps Q_Helpers
              sign_changes cox_mat0 dist0 [true; true; true] reflections0 C E)
    as (Rg & _).
  exact Rg.
Defined.

(** X15 on the new instance: an export with depth 4. *)
Lemma X15_export_needs_valid_words_witness :
  exists h h' f,
    Honeycomb_init diagram0 dist0 = Ok h
    /\ generate_povray_data h 4 100 eye0 lookat0 = Ok (h', f)
    /\ (snd (collect_fundamental_cell_edges h) = []
        \/ Forall (Forall (fun g => (g < length (reflections h))%nat))
                  (traverse (cox_mat h) (Some 4%nat) (Some 100%nat))).
Proof.
  assert (K : match Honeycomb_init diagram0 dist0 with
              | Ok h => is_ok (generate_povray_data h 4 100 eye0 lookat0)
              | Raise _ => false
              end = true) by (vm_compute; reflexivity).
  destruct (Honeycomb_init diagram0 dist0) as [h|e] eqn:E; [|discriminate K].
  apply is_ok_Ok in K as ([h' f] & G).
  exists h, h', f. split; [reflexivity|]. split; [exact G|].
  exact (X15_export_needs_valid_words _ _ _ _ _ G).
Defined.

End MoreInstances.
